(** * Hand-gesture recognition pipeline: pose matcher, frame channel, cooldown gate

    A shallow embedding of
      - [src/core/gesture_database.py]  (class [GestureDatabase]),
      - [src/core/camera_operator.py]   (class [CameraOperator]: the frame
                                         queue, the acquisition loop, the
                                         choice of a resolution),
      - [src/core/hand_tracker.py]      (class [HandTracker]: the coarse
                                         classifier and its history),
      - [src/main.py]                   ([_handle_gesture_recognition], the
                                         per-hand step of [_process_frame],
                                         the averaging of [_on_add_gesture]),
      - [src/config.py]                 (the constants these use).

    Numbers.  The Python code computes on IEEE binary64 values (Python floats
    and NumPy [float64] arrays).  They are modelled here by the real numbers
    [R]: no rounding, no overflow, no NaN.  Every statement below is a
    statement about that idealisation. *)

From Stdlib Require Import String.
From Stdlib Require Import Reals Lra Lia List Bool Arith ZArith.
From Stdlib Require Import Permutation Sorted.
Import ListNotations.
Open Scope R_scope.

(** ** Python exceptions *)

Module Py.

Inductive exn : Type :=
| ValueError   (* reshape of a bad size, shape mismatch, bad kth *)
| IndexError   (* row index out of range *)
| QueueEmpty   (* queue.Empty raised by get_nowait *).

Inductive result (A : Type) : Type :=
| Ok (a : A)
| Raise (e : exn).
Arguments Ok {A} a.
Arguments Raise {A} e.

Definition bind {A B} (c : result A) (k : A -> result B) : result B :=
  match c with
  | Ok a => k a
  | Raise e => Raise e
  end.

Definition is_ok {A} (c : result A) : bool :=
  match c with Ok _ => true | Raise _ => false end.

End Py.
Import Py.

Notation "x <- c ;; k" := (Py.bind c (fun x => k))
  (at level 61, c at next level, right associativity).

(** ** The NumPy operations the matcher uses *)

Module Np.

(** A row of an [(n, 3)] array. *)
Definition point : Type := (R * R * R)%type.

Definition origin : point := (0, 0, 0).

Definition vsub (p q : point) : point :=
  let '(x, y, z) := p in let '(a, b, c) := q in (x - a, y - b, z - c).

Definition vdiv (p : point) (s : R) : point :=
  let '(x, y, z) := p in (x / s, y / s, z / s).

(** [np.linalg.norm] of one row. *)
Definition norm3 (p : point) : R :=
  let '(x, y, z) := p in sqrt (x * x + y * y + z * z).

(** [a.reshape(-1, 3)] of a flat array: ValueError unless the size is a
    multiple of three (size 0 gives the empty [(0, 3)] array). *)
Fixpoint reshape3 (l : list R) : result (list point) :=
  match l with
  | [] => Ok []
  | x :: y :: z :: l' => rows <- reshape3 l' ;; Ok ((x, y, z) :: rows)
  | _ => Raise ValueError
  end.

(** [a.flatten()] of an [(n, 3)] array. *)
Fixpoint flatten (rows : list point) : list R :=
  match rows with
  | [] => []
  | (x, y, z) :: rows' => x :: y :: z :: flatten rows'
  end.

(** [a[i]] for a non-negative [i]. *)
Definition row (rows : list point) (i : nat) : result point :=
  match nth_error rows i with
  | Some p => Ok p
  | None => Raise IndexError
  end.

(** [a - w] and [a / s], a row or a scalar broadcast over the rows. *)
Definition sub_row (rows : list point) (w : point) : list point :=
  map (fun p => vsub p w) rows.

Definition div_scalar (rows : list point) (s : R) : list point :=
  map (fun p => vdiv p s) rows.

(** [np.linalg.norm(a, axis=1)]. *)
Definition norm_axis1 (rows : list point) : list R := map norm3 rows.

Fixpoint zip_sub (a b : list R) : list R :=
  match a, b with
  | x :: a', y :: b' => (x - y) :: zip_sub a' b'
  | _, _ => []
  end.

(** [a - b] on two one-dimensional arrays, with NumPy's broadcasting rule:
    equal sizes, or one of them of size 1; anything else is a ValueError. *)
Definition sub1d (a b : list R) : result (list R) :=
  if Nat.eqb (length a) (length b) then Ok (zip_sub a b)
  else match a, b with
       | _, [y] => Ok (map (fun x => x - y) a)
       | [x], _ => Ok (map (fun y => x - y) b)
       | _, _ => Raise ValueError
       end.

Fixpoint insert (x : R) (l : list R) : list R :=
  match l with
  | [] => [x]
  | y :: l' => if Rle_dec x y then x :: l else y :: insert x l'
  end.

Fixpoint sort (l : list R) : list R :=
  match l with
  | [] => []
  | x :: l' => insert x (sort l')
  end.

(** [np.partition(a, kth)]: ValueError when [kth] is out of bounds;
    otherwise some rearrangement of [a] with the [kth] smallest elements
    first.  The fully sorted array is one such rearrangement, and the
    only use of the result, the mean of its first [kth + 1] elements,
    is the same for all of them (see [lowest_sum_unique]). *)
Definition partition (a : list R) (kth : nat) : result (list R) :=
  if Nat.ltb kth (length a) then Ok (sort a) else Raise ValueError.

Definition sum (l : list R) : R := fold_right Rplus 0 l.

(** [np.mean]. *)
Definition mean (l : list R) : R := sum l / INR (length l).

End Np.
Import Np.

(** ** [GestureDatabase] *)

Module GestureDatabase.

(** [_normalize_landmarks] (the definition at lines 491-504, which
    replaces the textually identical one at lines 321-334). *)
Definition _normalize_landmarks (landmarks : list R) : result (list R) :=
  landmarks <- reshape3 landmarks ;;
  wrist <- row landmarks 0 ;;
  let centered := sub_row landmarks wrist in
  c9 <- row centered 9 ;;
  let scale := norm3 c9 in
  let centered :=
    if Rgt_dec scale 0 then div_scalar centered scale else centered in
  Ok (flatten centered).

(** One stored gesture, a JSON object.  [landmarks] is what
    [gesture.get('landmarks')] returns: [None] when the key is missing. *)
Record gesture : Type := {
  name : string;
  landmarks : option (list R);
  message : string;
  created_at : Z;
  is_default : bool
}.

(** [self.gestures]: a Python dict, which iterates in insertion order. *)
Definition library : Type := list (string * gesture).

Fixpoint dict_get (d : library) (k : string) : option gesture :=
  match d with
  | [] => None
  | (k', v) :: d' => if String.eqb k' k then Some v else dict_get d' k
  end.

(** [d[k] = v]: an existing key keeps its position, a new one goes last. *)
Fixpoint dict_set (d : library) (k : string) (v : gesture) : library :=
  match d with
  | [] => [(k, v)]
  | (k', v') :: d' =>
      if String.eqb k' k then (k, v) :: d' else (k', v') :: dict_set d' k v
  end.

(** The landmark arrays of [_get_default_gestures], lines 34-106. *)
Definition palm_landmarks : list R :=
  [ 5/10; 5/10; 0;   6/10; 4/10; 0;   7/10; 3/10; 0;   8/10; 3/10; 0;
    9/10; 3/10; 0;   5/10; 4/10; 0;   5/10; 3/10; 0;   5/10; 2/10; 0;
    5/10; 1/10; 0;   4/10; 4/10; 0;   4/10; 3/10; 0;   4/10; 2/10; 0;
    4/10; 1/10; 0;   3/10; 4/10; 0;   3/10; 3/10; 0;   3/10; 2/10; 0;
    3/10; 1/10; 0;   2/10; 5/10; 0;   2/10; 4/10; 0;   2/10; 3/10; 0;
    2/10; 2/10; 0 ].

Definition fist_landmarks : list R :=
  [ 5/10; 5/10; 0;   6/10; 4/10; 0;   7/10; 3/10; 0;   8/10; 3/10; 0;
    9/10; 3/10; 0;   5/10; 4/10; 0;   5/10; 5/10; 0;   5/10; 6/10; 0;
    5/10; 7/10; 0;   4/10; 4/10; 0;   4/10; 5/10; 0;   4/10; 6/10; 0;
    4/10; 7/10; 0;   3/10; 4/10; 0;   3/10; 5/10; 0;   3/10; 6/10; 0;
    3/10; 7/10; 0;   2/10; 5/10; 0;   2/10; 5/10; 0;   2/10; 6/10; 0;
    2/10; 7/10; 0 ].

Definition point_up_landmarks : list R :=
  [ 5/10; 5/10; 0;   6/10; 4/10; 0;   7/10; 3/10; 0;   8/10; 3/10; 0;
    9/10; 3/10; 0;   5/10; 2/10; 0;   5/10; 1/10; 0;   5/10; 0; 0;
    5/10; -1/10; 0;  4/10; 4/10; 0;   4/10; 5/10; 0;   4/10; 6/10; 0;
    4/10; 7/10; 0;   3/10; 4/10; 0;   3/10; 5/10; 0;   3/10; 6/10; 0;
    3/10; 7/10; 0;   2/10; 5/10; 0;   2/10; 5/10; 0;   2/10; 6/10; 0;
    2/10; 7/10; 0 ].

Definition default_gesture (name : string) (landmarks : list R)
    (message : string) : gesture :=
  {| name := name; landmarks := Some landmarks; message := message;
     created_at := 0; is_default := true |}.

(** [_get_default_gestures], lines 161-184 (the names without their
    leading pictograph). *)
Definition _get_default_gestures : library :=
  [ ("fist_default"%string,
     default_gesture "Fist" fist_landmarks "I NEED HELP");
    ("point_up_default"%string,
     default_gesture "Point Up" point_up_landmarks "I HAVE A DOUBT");
    ("palm_default"%string,
     default_gesture "Palm" palm_landmarks "WAIT A MINUTE") ].

(** [best_match]: [gesture.copy()] with the key ['id'] added. *)
Record matched : Type := { id : string; entry : gesture }.

(** The three loop variables of [find_similar_gesture]. *)
Record search : Type := {
  best_match : option matched;
  best_score : R;
  best_gesture_id : option string
}.

Definition search_init : search :=
  {| best_match := None; best_score := -1; best_gesture_id := None |}.

(** Python's [int(x)]: truncation towards zero. *)
Definition int (x : R) : Z :=
  if Rle_dec 0 x then Int_part x else (- Int_part (- x))%Z.

(** [k = max(1, int(len(distances) * 0.8))]. *)
Definition top_k (n : nat) : nat :=
  Z.to_nat (Z.max 1 (int (INR n * (8 / 10)))).

(** The body of the [try] block, lines 536-550: the similarity of one
    stored landmark array to the normalized query, or the exception. *)
Definition similarity_to (norm_landmarks stored : list R) : result R :=
  stored_norm <- _normalize_landmarks stored ;;
  diff <- sub1d norm_landmarks stored_norm ;;
  rows <- reshape3 diff ;;
  let distances := norm_axis1 rows in
  let k := top_k (length distances) in
  part <- partition distances (k - 1) ;;
  let topk_distances := firstn k part in
  let avg_distance := mean topk_distances in
  Ok (1 / (1 + avg_distance)).

(** One iteration of the [for] loop, lines 532-561, on a mapping whose
    landmarks are lists of numbers or missing, as [add_gesture] and the
    defaults make them; [visit_loaded] below takes whatever the database
    file holds. *)
Definition visit (norm_landmarks : list R) (st : search)
    (item : string * gesture) : search :=
  let '(gesture_id, gesture) := item in
  match landmarks gesture with
  | None => st                                  (* continue *)
  | Some [] => st                               (* continue *)
  | Some stored =>
      match similarity_to norm_landmarks stored with
      | Ok similarity =>
          if Rgt_dec similarity (best_score st)
          then {| best_match := Some {| id := gesture_id; entry := gesture |};
                  best_score := similarity;
                  best_gesture_id := Some gesture_id |}
          else st
      | Raise _ => st                           (* except: continue *)
      end
  end.

(** The whole loop. *)
Definition scan (norm_landmarks : list R) (gestures : library) : search :=
  fold_left (visit norm_landmarks) gestures search_init.

Definition default_threshold : R := 6 / 10.

(** [find_similar_gesture], lines 506-564. *)
Definition find_similar_gesture (gestures : library) (landmarks : list R)
    (threshold : R) : option matched :=
  match landmarks, gestures with
  | [], _ => None
  | _, [] => None
  | _, _ =>
      match _normalize_landmarks landmarks with
      | Raise _ => None
      | Ok norm_landmarks =>
          let st := scan norm_landmarks gestures in
          if Rge_dec (best_score st) threshold then best_match st else None
      end
  end.

(** *** Persistence *)

Record document : Type := { version : Z; doc_gestures : library }.

(** The two paths [_save_gestures] touches. *)
Record files : Type := {
  db_file : option document;      (* self.db_path *)
  tmp_file : option document      (* self.db_path + '.tmp' *)
}.

(** Which call of [_save_gestures] fails, if any.  The [except] branch
    removes the temporary file when it exists: the first three failures
    are the runs in which that removal succeeds, the last four the runs
    in which [os.remove(temp_path)] of line 421 raises as well, which
    line 422 ignores.  [DumpFails] stands for [open] or [json.dump]
    raising; in [OpenFailsTmpStays] it is [open] that raises, in
    [DumpFailsTmpStays] it is [json.dump]. *)
Inductive fault : Type :=
| NoFault
| DumpFails
| RemoveFails
| RenameFails
| OpenFailsTmpStays
| DumpFailsTmpStays
| RemoveFailsTmpStays
| RenameFailsTmpStays.

(** Whether the removal of the temporary file fails too. *)
Definition removal_fails (f : fault) : bool :=
  match f with
  | OpenFailsTmpStays | DumpFailsTmpStays
  | RemoveFailsTmpStays | RenameFailsTmpStays => true
  | _ => false
  end.

(** What the methods print. *)
Inductive printed : Type :=
| EmptyLandmarksError          (* "Error: Cannot add gesture with empty landmarks" *)
| SavedOk (n : nat)            (* "Successfully saved n gestures to ..." *)
| SaveError.                   (* "Error saving gestures to ..." *)

(** The object, the file system and the standard output. *)
Record world : Type := {
  gestures : library;
  disk : files;
  stdout : list printed
}.

Definition print (w : world) (p : printed) : world :=
  {| gestures := gestures w; disk := disk w; stdout := stdout w ++ [p] |}.

Definition with_disk (w : world) (d : files) : world :=
  {| gestures := gestures w; disk := d; stdout := stdout w |}.

(** The [except] branch of [_save_gestures], lines 416-424: the temporary
    file is removed, unless that fails, and [False] is returned.  [d] is
    the disk when the exception was raised. *)
Definition save_failed (f : fault) (w : world) (d : files) : bool * world :=
  (false,
   print (with_disk w
            {| db_file := db_file d;
               tmp_file := if removal_fails f then tmp_file d else None |})
         SaveError).

(** [_save_gestures], lines 396-424 (the definition in force).  While
    the temporary file is written, and after a failed [json.dump], it is
    modelled as holding the document: the code never reads it back. *)
Definition _save_gestures (f : fault) (w : world) (data : document)
    : bool * world :=
  match f with
  | DumpFails | OpenFailsTmpStays => save_failed f w (disk w)
  | DumpFailsTmpStays =>
      save_failed f w {| db_file := db_file (disk w); tmp_file := Some data |}
  | _ =>
      let d1 := {| db_file := db_file (disk w); tmp_file := Some data |} in
      match db_file d1, f with
      | Some _, RemoveFails => save_failed f w d1
      | Some _, RemoveFailsTmpStays => save_failed f w d1
      | _, _ =>
          let d2 := {| db_file := None; tmp_file := Some data |} in
          match f with
          | RenameFails | RenameFailsTmpStays => save_failed f w d2
          | _ =>
              (true,
               print (with_disk w {| db_file := Some data; tmp_file := None |})
                     (SavedOk (length (doc_gestures data))))
          end
      end
  end.

Definition store (w : world) (gesture_id name : string)
    (landmarks : list R) (message : string) (now : Z) : world :=
  {| gestures :=
       dict_set (gestures w) gesture_id
         {| name := name; landmarks := Some landmarks; message := message;
            created_at := now; is_default := false |};
     disk := disk w;
     stdout := stdout w |}.

(** [add_gesture], lines 454-471: the second definition in the class
    body, hence the one bound to the name.  [now] is [int(time.time())]. *)
Definition add_gesture (f : fault) (now : Z) (w : world)
    (gesture_id name : string) (landmarks : list R) (message : string)
    : bool * world :=
  match landmarks with
  | [] => (false, print w EmptyLandmarksError)
  | _ =>
      let w := store w gesture_id name landmarks message now in
      _save_gestures f w {| version := 1; doc_gestures := gestures w |}
  end.

(** [add_gesture], lines 296-304: the first definition, overwritten by
    the one above when the class body is executed. *)
Definition add_gesture_overwritten (f : fault) (now : Z) (w : world)
    (gesture_id name : string) (landmarks : list R) (message : string)
    : bool * world :=
  let w := store w gesture_id name landmarks message now in
  _save_gestures f w {| version := 1; doc_gestures := gestures w |}.

(** [k in d]. *)
Definition dict_mem (d : library) (k : string) : bool :=
  match dict_get d k with Some _ => true | None => false end.

(** [del d[k]]. *)
Fixpoint dict_del (d : library) (k : string) : library :=
  match d with
  | [] => []
  | (k', v) :: d' =>
      if String.eqb k' k then d' else (k', v) :: dict_del d' k
  end.

(** [delete_gesture], lines 473-481. *)
Definition delete_gesture (f : fault) (w : world) (gesture_id : string)
    : bool * world :=
  if dict_mem (gestures w) gesture_id
  then
    let w := {| gestures := dict_del (gestures w) gesture_id;
                disk := disk w; stdout := stdout w |} in
    _save_gestures f w {| version := 1; doc_gestures := gestures w |}
  else (false, w).

(** [get_gesture], lines 483-485. *)
Definition get_gesture (w : world) (gesture_id : string) : option gesture :=
  dict_get (gestures w) gesture_id.

(** [get_all_gestures], lines 487-489. *)
Definition get_all_gestures (w : world) : library := gestures w.

(** *** Entries as [json.load] delivers them

    [self.gestures] is whatever the file holds, so that
    [gesture.get('landmarks')] need not be a list of numbers. *)

Inductive landmarks_value : Type :=
| Falsy                  (* the key is missing, or the value is null, 0,
                            false, "", [] or {}: [not value] is true *)
| Numbers (l : list R)   (* a list of numbers *)
| OtherSized             (* another value with a positive length, such
                            as a non-empty string or object: the
                            [reshape(-1, 3)] of line 493 raises
                            ValueError, inside the [try] *)
| Unsized.               (* a non-zero number or true: [not value] is
                            false and [len(value)] raises TypeError *)

Record loaded : Type := {
  l_name : string;
  l_landmarks : landmarks_value;
  l_message : string;
  l_created_at : Z;
  l_is_default : bool
}.

(** The entry with its landmarks as a list of numbers, when they are
    one. *)
Definition typed (g : loaded) : gesture :=
  {| name := l_name g;
     landmarks := match l_landmarks g with Numbers l => Some l | _ => None end;
     message := l_message g;
     created_at := l_created_at g;
     is_default := l_is_default g |}.

(** A well-typed entry as a loaded one. *)
Definition load (g : gesture) : loaded :=
  {| l_name := name g;
     l_landmarks := match landmarks g with Some l => Numbers l | None => Falsy end;
     l_message := message g;
     l_created_at := created_at g;
     l_is_default := is_default g |}.

(** One pass of the loop of lines 532-561 on a loaded entry.  The guard
    of line 533 stands before the [try] of line 536: [None] is the
    TypeError that [len] raises there, which leaves the function. *)
Definition visit_loaded (norm_landmarks : list R) (st : search)
    (item : string * loaded) : option search :=
  let '(gesture_id, gesture) := item in
  match l_landmarks gesture with
  | Falsy => Some st                                (* continue *)
  | Unsized => None                                 (* TypeError *)
  | Numbers [] => Some st                           (* continue *)
  | Numbers stored =>
      match similarity_to norm_landmarks stored with
      | Ok similarity =>
          if Rgt_dec similarity (best_score st)
          then Some {| best_match :=
                         Some {| id := gesture_id; entry := typed gesture |};
                       best_score := similarity;
                       best_gesture_id := Some gesture_id |}
          else Some st
      | Raise _ => Some st                          (* except: continue *)
      end
  | OtherSized => Some st                           (* except: continue *)
  end.

(** The whole loop, as far as it gets. *)
Fixpoint scan_loaded (norm_landmarks : list R) (st : search)
    (gestures : list (string * loaded)) : option search :=
  match gestures with
  | [] => Some st
  | item :: rest =>
      match visit_loaded norm_landmarks st item with
      | Some st' => scan_loaded norm_landmarks st' rest
      | None => None
      end
  end.

(** How a call of [find_similar_gesture] ends. *)
Inductive found : Type :=
| Returned (r : option matched)
| RaisedTypeError.

(** [find_similar_gesture], lines 506-564, on loaded entries. *)
Definition find_similar_gesture_loaded (gestures : list (string * loaded))
    (landmarks : list R) (threshold : R) : found :=
  match landmarks, gestures with
  | [], _ => Returned None
  | _, [] => Returned None
  | _, _ =>
      match _normalize_landmarks landmarks with
      | Raise _ => Returned None
      | Ok norm_landmarks =>
          match scan_loaded norm_landmarks search_init gestures with
          | Some st =>
              Returned (if Rge_dec (best_score st) threshold
                        then best_match st else None)
          | None => RaisedTypeError
          end
      end
  end.

End GestureDatabase.
Import GestureDatabase.

(** ** [config.py] *)

Module Config.

(** [CAMERA_RESOLUTIONS], lines 15-23: width and height, widest first. *)
Definition CAMERA_RESOLUTIONS : list (Z * Z) :=
  [ (1920, 1080); (1600, 900); (1366, 768); (1280, 720);
    (1024, 576); (854, 480); (640, 360) ]%Z.

(** The two bounds of an entry of [GESTURE_TYPES]. *)
Record params : Type := {
  min_landmark_dist : R;
  max_landmark_dist : R
}.

(** [GESTURE_TYPES], lines 46-66, in the order of the dict. *)
Definition GESTURE_TYPES : list (string * params) :=
  [ ("palm"%string,
     {| min_landmark_dist := 1 / 10; max_landmark_dist := 5 / 10 |});
    ("fist"%string,
     {| min_landmark_dist := 2 / 100; max_landmark_dist := 2 / 10 |});
    ("point_up"%string,
     {| min_landmark_dist := 5 / 100; max_landmark_dist := 4 / 10 |}) ].

(** [GESTURE_RECOGNITION_THRESHOLD], line 78. *)
Definition GESTURE_RECOGNITION_THRESHOLD : R := 7 / 10.

End Config.

(** ** [CameraOperator]: the frame queue *)

Module CameraOperator.

Section Channel.

Variable frame : Type.

(** [queue.Queue]: first in, first out; the head is the oldest item. *)
Definition queue : Type := list frame.

(** [Queue(maxsize=1)], line 15. *)
Definition maxsize : nat := 1.

(** How a call ends: it returns, it raises, or it waits for the other
    thread. *)
Inductive outcome (A : Type) : Type :=
| Returns (a : A) (q : queue)
| Raises (e : exn) (q : queue)
| Blocks.
Arguments Returns {A} a q.
Arguments Raises {A} e q.
Arguments Blocks {A}.

Definition empty (q : queue) : bool :=
  match q with [] => true | _ :: _ => false end.

Definition get_nowait (q : queue) : outcome frame :=
  match q with
  | [] => Raises QueueEmpty q
  | f :: q' => Returns f q'
  end.

(** [get()] with the default [block=True]. *)
Definition get (q : queue) : outcome frame :=
  match q with
  | [] => Blocks
  | f :: q' => Returns f q'
  end.

(** [put(item)] with the default [block=True]. *)
Definition put (q : queue) (f : frame) : outcome unit :=
  if Nat.ltb (length q) maxsize then Returns tt (q ++ [f]) else Blocks.

(** One pass of the loop of lines 122-126:
    [while not empty(): try: get_nowait() except: break].
    [None] when the loop is left, the shorter queue otherwise. *)
Definition discard_step (q : queue) : option queue :=
  if empty q then None
  else match get_nowait q with
       | Returns _ q' => Some q'
       | _ => None
       end.

(** The loop itself; every pass removes the head. *)
Fixpoint discard_old (q : queue) : queue :=
  match q with
  | [] => q
  | _ :: q' => discard_old q'
  end.

(** Lines 121-128 of [_update_frame]: publish one frame. *)
Definition publish (q : queue) (f : frame) : outcome unit :=
  put (discard_old q) f.

(** [get_frame], lines 138-146. *)
Definition get_frame (q : queue) : outcome (option frame) :=
  if negb (empty q)
  then match get q with
       | Returns f q' => Returns (Some f) q'
       | Raises _ q' => Returns None q'
       | Blocks => Blocks
       end
  else Returns None q.

(** Several publishes in a row, nothing taken in between. *)
Fixpoint publish_all (q : queue) (fs : list frame) : outcome unit :=
  match fs with
  | [] => Returns tt q
  | f :: fs' =>
      match publish q f with
      | Returns _ q' => publish_all q' fs'
      | Raises e q' => Raises e q'
      | Blocks => Blocks
      end
  end.

(** A call on the queue by one of the two threads. *)
Inductive call : Type :=
| Publish (f : frame)
| Take.

(** Calls made one after the other; [None] as soon as one of them waits
    or raises.  The list holds what the takes returned. *)
Fixpoint calls (q : queue) (cs : list call)
    : option (queue * list (option frame)) :=
  match cs with
  | [] => Some (q, [])
  | Publish f :: cs' =>
      match publish q f with
      | Returns _ q' => calls q' cs'
      | _ => None
      end
  | Take :: cs' =>
      match get_frame q with
      | Returns o q' =>
          match calls q' cs' with
          | Some (q'', os) => Some (q'', o :: os)
          | None => None
          end
      | _ => None
      end
  end.

(** What [self.cap.read()] does in one pass of [_update_frame]. *)
Inductive grabbed : Type :=
| Grabbed (f : frame)      (* ret is true *)
| NotGrabbed               (* ret is false *)
| ReadRaised.              (* an exception, caught at line 134 *)

(** The variables of the loop of [_update_frame], lines 92-136. *)
Record grabber : Type := {
  consecutive_errors : nat;
  frame_queue : queue;
  camera_initialized : bool
}.

Definition max_errors : nat := 5.

(** What happens to the loop variables, in order: a pass of the loop,
    with [self.running] as the [while] of line 97 reads it and what
    [read] does, or a call of [get_frame] by the main thread between two
    passes.  This thread is the only one that puts frames, which holds
    until [_init_camera] is called again. *)
Inductive event : Type :=
| LoopPass (running : bool) (r : grabbed)
| FrameTaken.

(** How a run ends: the loop goes on; [_init_camera] is called again
    (line 106); the loop is left because [self.running] is false; or a
    call on the queue waits.  A successful [_init_camera] starts another
    thread that runs this loop on the same queue, so what follows the
    call is not the run of one loop any more: the model stops there. *)
Inductive pass : Type :=
| GoesOn (g : grabber)
| Reinitializes (g : grabber)
| Exits (g : grabber)
| Waits.

(** One pass of the loop, up to the call of [_init_camera].  [flip] is
    [cv2.flip(frame, 1)], [None] when it raises: the counter is reset
    by then (line 116) and line 134 catches the exception. *)
Definition one_pass (flip : frame -> option frame) (g : grabber)
    (running : bool) (r : grabbed) : pass :=
  if negb running then Exits g
  else
    match r with
    | NotGrabbed =>
        let errors := S (consecutive_errors g) in
        let g' := {| consecutive_errors := errors;
                     frame_queue := frame_queue g;
                     camera_initialized := camera_initialized g |} in
        if Nat.leb max_errors errors then Reinitializes g' else GoesOn g'
    | Grabbed f =>
        match flip f with
        | None =>
            GoesOn {| consecutive_errors := 0;
                      frame_queue := frame_queue g;
                      camera_initialized := camera_initialized g |}
        | Some mirrored =>
            match publish (frame_queue g) mirrored with
            | Returns _ q' =>
                GoesOn {| consecutive_errors := 0;
                          frame_queue := q';
                          camera_initialized := true |}
            | Raises _ q' =>
                GoesOn {| consecutive_errors := 0;
                          frame_queue := q';
                          camera_initialized := camera_initialized g |}
            | Blocks => Waits
            end
        end
    | ReadRaised => GoesOn g
    end.

(** The events in order, as long as the loop goes on. *)
Fixpoint passes (flip : frame -> option frame) (g : grabber)
    (es : list event) : pass :=
  match es with
  | [] => GoesOn g
  | LoopPass running r :: es' =>
      match one_pass flip g running r with
      | GoesOn g' => passes flip g' es'
      | stopped => stopped
      end
  | FrameTaken :: es' =>
      match get_frame (frame_queue g) with
      | Returns _ q' | Raises _ q' =>
          passes flip {| consecutive_errors := consecutive_errors g;
                         frame_queue := q';
                         camera_initialized := camera_initialized g |} es'
      | Blocks => Waits
      end
  end.

(** The loop variables when the thread starts. *)
Definition grabber_init : grabber :=
  {| consecutive_errors := 0; frame_queue := [];
     camera_initialized := false |}.

End Channel.

Arguments Returns {frame A} a q.
Arguments Raises {frame A} e q.
Arguments Blocks {frame A}.
Arguments empty {frame} q.
Arguments get_nowait {frame} q.
Arguments get {frame} q.
Arguments put {frame} q f.
Arguments discard_step {frame} q.
Arguments discard_old {frame} q.
Arguments publish {frame} q f.
Arguments get_frame {frame} q.
Arguments publish_all {frame} q fs.
Arguments Publish {frame} f.
Arguments Take {frame}.
Arguments calls {frame} q cs.
Arguments Grabbed {frame} f.
Arguments NotGrabbed {frame}.
Arguments ReadRaised {frame}.
Arguments consecutive_errors {frame} g.
Arguments frame_queue {frame} g.
Arguments camera_initialized {frame} g.
Arguments LoopPass {frame} running r.
Arguments FrameTaken {frame}.
Arguments GoesOn {frame} g.
Arguments Reinitializes {frame} g.
Arguments Exits {frame} g.
Arguments Waits {frame}.
Arguments one_pass {frame} flip g running r.
Arguments passes {frame} flip g es.
Arguments grabber_init {frame}.

Section Device.

(** The capture device, [cv2.VideoCapture], as far as lines 38-57 of
    [_init_camera] use it. *)
Variable device : Type.

Inductive prop : Type := CAP_PROP_FRAME_WIDTH | CAP_PROP_FRAME_HEIGHT.

(** [cap.set(prop, value)] and [int(cap.get(prop))]. *)
Variable cap_set : device -> prop -> Z -> device.
Variable cap_get : device -> prop -> Z.

(** The loop of lines 39-51: whether a resolution was accepted, and the
    device after the last request made. *)
Fixpoint try_resolutions (cap : device) (resolutions : list (Z * Z))
    : bool * device :=
  match resolutions with
  | [] => (false, cap)
  | (width, height) :: rest =>
      let cap := cap_set cap CAP_PROP_FRAME_WIDTH width in
      let cap := cap_set cap CAP_PROP_FRAME_HEIGHT height in
      let actual_width := cap_get cap CAP_PROP_FRAME_WIDTH in
      let actual_height := cap_get cap CAP_PROP_FRAME_HEIGHT in
      if Z.eqb actual_width width && Z.eqb actual_height height
      then (true, cap)
      else try_resolutions cap rest
  end.

(** [self.frame_width], [self.frame_height], lines 65-66. *)
Definition frame_size (cap : device) : Z * Z :=
  (cap_get cap CAP_PROP_FRAME_WIDTH, cap_get cap CAP_PROP_FRAME_HEIGHT).

End Device.

Arguments try_resolutions {device} cap_set cap_get cap resolutions.
Arguments frame_size {device} cap_get cap.

End CameraOperator.

(** ** [HandTracker]: the coarse classifier *)

Module HandTracker.

(** The distances from one row to the rows after it, then the same for
    the rows after it: the two nested loops of lines 125-128. *)
Fixpoint pairwise (rows : list point) : list R :=
  match rows with
  | [] => []
  | p :: rest => map (fun q => norm3 (vsub p q)) rest ++ pairwise rest
  end.

(** [_get_average_landmark_distance], lines 115-130. *)
Definition _get_average_landmark_distance (landmarks : list R) : result R :=
  if Nat.ltb (length landmarks) 2 then Ok 0
  else
    landmarks_np <- reshape3 landmarks ;;
    match pairwise landmarks_np with
    | [] => Ok 0
    | distances => Ok (mean distances)
    end.

(** Lines 139-150 of [_recognize_gesture]: the mean pairwise distance
    divided by the distance from the wrist to the middle finger tip. *)
Definition normalized_dist (landmarks : list R) : result R :=
  landmarks_np <- reshape3 landmarks ;;
  wrist <- row landmarks_np 0 ;;
  middle_tip <- row landmarks_np 12 ;;
  let hand_span := norm3 (vsub wrist middle_tip) in
  avg_dist <- _get_average_landmark_distance landmarks ;;
  Ok (if Rgt_dec hand_span 0 then avg_dist / hand_span else 0).

(** [best_match] and [min_diff]; [None] is [float('inf')]. *)
Definition candidate : Type := (string * option R)%type.

(** One pass of the loop of lines 156-165. *)
Definition consider (d : R) (c : candidate) (item : string * Config.params)
    : candidate :=
  let '(gesture_type, params) := item in
  if Rle_dec (Config.min_landmark_dist params) d then
    if Rle_dec d (Config.max_landmark_dist params) then
      let mid_range :=
        (Config.min_landmark_dist params + Config.max_landmark_dist params) / 2 in
      let diff := Rabs (d - mid_range) in
      match snd c with
      | None => (gesture_type, Some diff)
      | Some min_diff =>
          if Rlt_dec diff min_diff then (gesture_type, Some diff) else c
      end
    else c
  else c.

(** Lines 153-165: the tag of a normalized distance. *)
Definition classify (d : R) : string :=
  fst (fold_left (consider d) Config.GESTURE_TYPES ("unknown"%string, None)).

Fixpoint count (tag : string) (l : list string) : nat :=
  match l with
  | [] => 0
  | x :: l' => (if String.eqb x tag then 1 else 0) + count tag l'
  end.

(** The keys of [Counter(l)], in the order in which they first occur. *)
Fixpoint keys (l : list string) : list string :=
  match l with
  | [] => []
  | x :: l' => x :: filter (fun y => negb (String.eqb y x)) (keys l')
  end.

(** [max(ks, key=count)]: the first key with the highest count. *)
Fixpoint first_max (l : list string) (best : string) (ks : list string)
    : string :=
  match ks with
  | [] => best
  | k :: ks' =>
      first_max l (if Nat.ltb (count best l) (count k l) then k else best) ks'
  end.

(** [Counter(l).most_common(1)[0][0]]; IndexError on the empty list. *)
Definition most_common (l : list string) : result string :=
  match keys l with
  | [] => Raise IndexError
  | k :: ks => Ok (first_max l k ks)
  end.

(** [self.history_length], line 22. *)
Definition history_length : nat := 5.

(** [_recognize_gesture], lines 132-181: the tag returned and
    [self.gesture_history] afterwards. *)
Definition _recognize_gesture (gesture_history : list string)
    (landmarks : list R) : string * list string :=
  if Nat.ltb (length landmarks) (21 * 3)
  then ("unknown"%string, gesture_history)
  else
    match normalized_dist landmarks with
    | Raise _ => ("unknown"%string, gesture_history)
    | Ok d =>
        let best_match := classify d in
        let history := gesture_history ++ [best_match] in
        let history :=
          if Nat.ltb history_length (length history)
          then tl history else history in
        match most_common history with
        | Ok tag => (tag, history)
        | Raise _ => ("unknown"%string, history)
        end
    end.

End HandTracker.

(** ** [SignToSpeechApp]: the cooldown gate *)

Module SignToSpeechApp.

(** The two effects of a trigger, lines 183-184. *)
Inductive effect : Type :=
| SetRecognizedText (msg : string)
| Speak (msg : string).

(** The state variables of lines 53-54. *)
Record gate : Type := {
  current_gesture : option string;
  last_gesture_time : R
}.

Definition gate_init : gate :=
  {| current_gesture := None; last_gesture_time := 0 |}.

(** [self.current_gesture != gesture['id']]. *)
Definition differs (current : option string) (gesture_id : string) : bool :=
  match current with
  | None => true
  | Some c => negb (String.eqb c gesture_id)
  end.

Definition cooldown : R := 5.

(** The condition of lines 176-177. *)
Definition fires (g : gate) (current_time : R) (m : matched) : bool :=
  differs (current_gesture g) (id m)
  || (if Rgt_dec (current_time - last_gesture_time g) cooldown
      then true else false).

(** [_handle_gesture_recognition], lines 171-184; [current_time] is the
    value of [time.time()]. *)
Definition _handle_gesture_recognition (g : gate) (current_time : R)
    (m : matched) : gate * list effect :=
  if fires g current_time m
  then ({| current_gesture := Some (id m); last_gesture_time := current_time |},
        [SetRecognizedText (message (entry m)); Speak (message (entry m))])
  else (g, []).

(** A sequence of matches, each with its time; the effects of each. *)
Fixpoint handle_all (g : gate) (ms : list (R * matched))
    : gate * list (list effect) :=
  match ms with
  | [] => (g, [])
  | (t, m) :: ms' =>
      let '(g1, out) := _handle_gesture_recognition g t m in
      let '(g2, outs) := handle_all g1 ms' in
      (g2, out :: outs)
  end.

Definition triggered (out : list effect) : bool :=
  match out with [] => false | _ :: _ => true end.

(** How many matches of a run fired. *)
Definition triggers (outs : list (list effect)) : nat :=
  length (filter triggered outs).

(** The first element of every list, unless one of them is empty. *)
Fixpoint heads (ls : list (list R)) : option (list R) :=
  match ls with
  | [] => Some []
  | [] :: _ => None
  | (x :: _) :: ls' =>
      match heads ls' with
      | Some hs => Some (x :: hs)
      | None => None
      end
  end.

Fixpoint zip_upto (n : nat) (ls : list (list R)) : list (list R) :=
  match n with
  | O => []
  | S n' =>
      match heads ls with
      | Some hs => hs :: zip_upto n' (map (@tl R) ls)
      | None => []
      end
  end.

(** [zip] of the lists of [ls], unpacked by a star: the tuples of first,
    second, ... elements, as many as the shortest list has; no list, no
    tuple. *)
Definition zip_star (ls : list (list R)) : list (list R) :=
  match ls with
  | [] => []
  | l :: _ => zip_upto (length l) ls
  end.

(** [sum(x)]: the additions from the left, starting from 0. *)
Definition py_sum (x : list R) : R := fold_left Rplus x 0.

(** Line 258 of [_on_add_gesture]: [sum(x) / len(x)] for every tuple [x]
    of [zip] of the samples. *)
Definition avg_landmarks (landmarks_list : list (list R)) : list R :=
  map (fun x => py_sum x / INR (length x)) (zip_star landmarks_list).

(** Lines 105-133 of [_process_frame], for one detected hand: the coarse
    tag, the library match, and the gate.  Drawing is left out.
    [gesture_history] is the tracker's history, [current_time] the clock
    read by [_handle_gesture_recognition]. *)
Definition process_hand (lib : library) (g : gate)
    (gesture_history : list string) (current_time : R) (landmarks : list R)
    : gate * list string * list effect :=
  match landmarks with
  | [] => (g, gesture_history, [])
  | _ =>
      let '(gesture_type, gesture_history) :=
        HandTracker._recognize_gesture gesture_history landmarks in
      match find_similar_gesture lib landmarks
              Config.GESTURE_RECOGNITION_THRESHOLD with
      | Some matched_gesture =>
          let '(g, out) :=
            _handle_gesture_recognition g current_time matched_gesture in
          (g, gesture_history, out)
      | None => (g, gesture_history, [])
      end
  end.

End SignToSpeechApp.

(** ** The specification's wording, for comparison with the code *)

Module Spec.

(** Point [i] of a flat landmark list: scalars [3i], [3i+1], [3i+2]. *)
Definition point_at (l : list R) (i : nat) : point :=
  (nth (3 * i) l 0, nth (3 * i + 1) l 0, nth (3 * i + 2) l 0).

(** Point [i] after subtracting point 0, the wrist. *)
Definition centered (l : list R) (i : nat) : point :=
  vsub (point_at l i) (point_at l 0).

(** Euclidean distance of the centered point 9 to the origin. *)
Definition reference_distance (l : list R) : R :=
  let '(x, y, z) := centered l 9 in
  sqrt ((x - 0) * (x - 0) + (y - 0) * (y - 0) + (z - 0) * (z - 0)).

(** Point [i] of the normalized set. *)
Definition normalized (l : list R) (i : nat) : point :=
  if Rlt_dec 0 (reference_distance l)
  then vdiv (centered l i) (reference_distance l)
  else centered l i.

(** Euclidean distance between joint [i] of two landmark lists. *)
Definition joint_distance (a b : list R) (i : nat) : R :=
  let '(x, y, z) := point_at a i in
  let '(u, v, w) := point_at b i in
  sqrt ((x - u) * (x - u) + (y - v) * (y - v) + (z - w) * (z - w)).

Definition joints : nat := 21.

(** The 21 per-joint distances. *)
Definition joint_distances (a b : list R) : list R :=
  map (joint_distance a b) (seq 0 joints).

(** [chosen] are [k] lowest values of [ds]: [k] of them, and none of the
    values left out is below one of them. *)
Definition lowest (k : nat) (ds chosen : list R) : Prop :=
  length chosen = k /\
  exists rest, Permutation ds (chosen ++ rest) /\
               forall x y, In x chosen -> In y rest -> x <= y.

(** [similarity = 1 / (1 + avg_distance)]. *)
Definition similarity_of (avg_distance : R) : R := 1 / (1 + avg_distance).

End Spec.

(** ** Auxiliary definitions used in the proofs *)

Module Aux.

(** [_normalize_landmarks] between its [reshape] and its [flatten]. *)
Definition normalize_rows (rows : list point) : list point :=
  let centered := sub_row rows (nth 0 rows origin) in
  let scale := norm3 (nth 9 centered origin) in
  if Rgt_dec scale 0 then div_scalar centered scale else centered.

(** Row-wise difference of two [(n, 3)] arrays. *)
Fixpoint zip_vsub (a b : list point) : list point :=
  match a, b with
  | p :: a', q :: b' => vsub p q :: zip_vsub a' b'
  | _, _ => []
  end.

(** The similarity the loop body obtains for an entry: none when the
    entry is passed over by [continue], before or inside the [try]. *)
Definition score (norm_landmarks : list R) (g : gesture) : option R :=
  match landmarks g with
  | None => None
  | Some [] => None
  | Some stored =>
      match similarity_to norm_landmarks stored with
      | Ok similarity => Some similarity
      | Raise _ => None
      end
  end.

(** The loop variables after an entry has become the best one. *)
Definition leader (gesture_id : string) (g : gesture) (similarity : R)
    : search :=
  {| best_match := Some {| id := gesture_id; entry := g |};
     best_score := similarity;
     best_gesture_id := Some gesture_id |}.

(** The rows of a flat array, three scalars at a time. *)
Fixpoint rows_of (l : list R) : list point :=
  match l with
  | x :: y :: z :: l' => (x, y, z) :: rows_of l'
  | _ => []
  end.

(** The library entry used in the examples: the default fist. *)
Definition fist : gesture :=
  default_gesture "Fist" fist_landmarks "I NEED HELP".

(** An entry whose landmark array holds a single point. *)
Definition one_point : gesture :=
  {| name := "dot"; landmarks := Some [5/10; 5/10; 0]; message := "";
     created_at := 0; is_default := false |}.

(** A loaded library with its landmarks as lists of numbers. *)
Definition typed_library (lib : list (string * loaded)) : library :=
  map (fun item => (fst item, typed (snd item))) lib.

(** [len] accepts the landmarks of the entry. *)
Definition sized (item : string * loaded) : bool :=
  match l_landmarks (snd item) with
  | Unsized => false
  | _ => true
  end.

(** The entry cannot be compared with the query: its landmarks are
    missing or empty, or normalizing them or measuring the distances
    raises (a number has no shape [(-1, 3)] either). *)
Definition fails_to_compare (norm_landmarks : list R) (g : loaded) : Prop :=
  match l_landmarks g with
  | Falsy => True
  | Numbers stored =>
      stored = [] \/ exists e, similarity_to norm_landmarks stored = Raise e
  | OtherSized => True
  | Unsized => True
  end.

(** The default palm as a database file can hold it, its "landmarks"
    being the number 5. *)
Definition palm_with_number : loaded :=
  {| l_name := "Palm"; l_landmarks := Unsized;
     l_message := "WAIT A MINUTE"; l_created_at := 0;
     l_is_default := true |}.

(** The failed reads counted after a sequence of events, [c] being
    counted before: a frame resets the count, a failed read adds one,
    an exception in [read] and a frame taken leave it. *)
Fixpoint streak {frame : Type} (c : nat)
    (es : list (CameraOperator.event frame)) : nat :=
  match es with
  | [] => c
  | CameraOperator.LoopPass _ (CameraOperator.Grabbed _) :: es' =>
      streak 0 es'
  | CameraOperator.LoopPass _ CameraOperator.NotGrabbed :: es' =>
      streak (S c) es'
  | CameraOperator.LoopPass _ CameraOperator.ReadRaised :: es' =>
      streak c es'
  | CameraOperator.FrameTaken :: es' => streak c es'
  end.

(** [self.running] is true at the event. *)
Definition still_running {frame : Type}
    (e : CameraOperator.event frame) : bool :=
  match e with
  | CameraOperator.LoopPass running _ => running
  | CameraOperator.FrameTaken => true
  end.

(** The event puts a frame into the queue. *)
Definition delivers {frame : Type} (flip : frame -> option frame)
    (e : CameraOperator.event frame) : bool :=
  match e with
  | CameraOperator.LoopPass true (CameraOperator.Grabbed f) =>
      match flip f with Some _ => true | None => false end
  | _ => false
  end.

(** All keys of a library. *)
Definition ids (lib : library) : list string := map fst lib.

(** What the takes of a sequence of calls are expected to return when
    only the latest frame counts: [pending] is the frame published since
    the last take, if any. *)
Fixpoint latest {frame : Type} (pending : option frame)
    (cs : list (CameraOperator.call frame)) : list (option frame) :=
  match cs with
  | [] => []
  | CameraOperator.Publish f :: cs' => latest (Some f) cs'
  | CameraOperator.Take :: cs' => pending :: latest None cs'
  end.

(** A capture device for the examples: it takes 800x600 and 640x360 and
    answers every other request with 800x600.  Its state is the size
    last asked for. *)
Definition webcam_set (c : Z * Z) (p : CameraOperator.prop) (v : Z) : Z * Z :=
  match p with
  | CameraOperator.CAP_PROP_FRAME_WIDTH => (v, snd c)
  | CameraOperator.CAP_PROP_FRAME_HEIGHT => (fst c, v)
  end.

Definition webcam_supports (r : Z * Z) : bool :=
  (Z.eqb (fst r) 640 && Z.eqb (snd r) 360)
  || (Z.eqb (fst r) 800 && Z.eqb (snd r) 600).

Definition webcam_get (c : Z * Z) (p : CameraOperator.prop) : Z :=
  let '(w, h) := if webcam_supports c then c else (800, 600)%Z in
  match p with
  | CameraOperator.CAP_PROP_FRAME_WIDTH => w
  | CameraOperator.CAP_PROP_FRAME_HEIGHT => h
  end.

(** The matches of a run that fired, each with its time and identifier:
    the matches whose list of effects is not empty. *)
Definition fired (g : SignToSpeechApp.gate)
    (ms : list (R * matched)) : list (R * string) :=
  map (fun p => (fst (fst p), id (snd (fst p))))
      (filter (fun p => SignToSpeechApp.triggered (snd p))
              (combine ms (snd (SignToSpeechApp.handle_all g ms)))).

(** Each trigger of the list is for another identifier than the one
    before it, or comes more than five seconds after it; [last] is the
    identifier and the time before the first one. *)
Fixpoint spaced (last : option string * R) (l : list (R * string)) : Prop :=
  match l with
  | [] => True
  | (t, a) :: l' =>
      (fst last <> Some a \/ t - snd last > 5) /\ spaced (Some a, t) l'
  end.

End Aux.
Import Aux.

(** * Facts about the array operations *)

Section ArrayFacts.

Lemma reshape3_flatten (rows : list point) :
  reshape3 (flatten rows) = Ok rows.
Proof.
  induction rows as [|[[x y] z] rows IH]; simpl; [reflexivity|].
  rewrite IH. reflexivity.
Qed.

Lemma flatten_length (rows : list point) :
  length (flatten rows) = (3 * length rows)%nat.
Proof.
  induction rows as [|[[x y] z] rows IH]; simpl; [reflexivity|].
  rewrite IH. lia.
Qed.

(** A list of [3 * n] scalars always reshapes, into [n] rows. *)
Lemma reshape3_total (n : nat) :
  forall l, length l = (3 * n)%nat ->
  exists rows, reshape3 l = Ok rows /\ length rows = n /\ flatten rows = l.
Proof.
  induction n as [|n IH]; intros l Hl.
  - destruct l; [|discriminate]. exists []. auto.
  - destruct l as [|x [|y [|z l]]]; simpl in Hl; try lia.
    destruct (IH l) as (rows & Hr & Hn & Hf); [lia|].
    exists ((x, y, z) :: rows). simpl. rewrite Hr. simpl.
    repeat split; [now rewrite Hn | now rewrite Hf].
Qed.

Lemma point_at_flatten (rows : list point) :
  forall i, Spec.point_at (flatten rows) i = nth i rows origin.
Proof.
  induction rows as [|[[x y] z] rows IH]; intros i.
  - unfold Spec.point_at. simpl.
    destruct i; simpl; [reflexivity|].
    now destruct (i + S (i + S (i + 0)))%nat; destruct i.
  - destruct i as [|i]; [reflexivity|].
    change (nth (S i) ((x, y, z) :: rows) origin) with (nth i rows origin).
    rewrite <- IH. unfold Spec.point_at.
    replace (3 * S i)%nat with (3 + 3 * i)%nat by lia.
    reflexivity.
Qed.

End ArrayFacts.

(** * Normalization *)

Section Normalization.

Ltac vec_eq :=
  repeat match goal with p : point |- _ => destruct p as [[? ?] ?] end;
  unfold vsub, vdiv, origin; repeat f_equal; try lra.

Lemma row_nth (rows : list point) (i : nat) :
  (i < length rows)%nat -> row rows i = Ok (nth i rows origin).
Proof.
  intros Hi. unfold row.
  destruct (nth_error rows i) as [p|] eqn:E.
  - now rewrite (nth_error_nth _ _ origin E).
  - apply nth_error_None in E. lia.
Qed.

Lemma nth_sub_row (rows : list point) (w : point) (i : nat) :
  (i < length rows)%nat ->
  nth i (sub_row rows w) origin = vsub (nth i rows origin) w.
Proof.
  intros Hi. unfold sub_row.
  rewrite (nth_indep _ origin (vsub origin w)) by now rewrite length_map.
  apply (map_nth (fun p => vsub p w)).
Qed.

Lemma nth_div_scalar (rows : list point) (s : R) (i : nat) :
  (i < length rows)%nat ->
  nth i (div_scalar rows s) origin = vdiv (nth i rows origin) s.
Proof.
  intros Hi. unfold div_scalar.
  rewrite (nth_indep _ origin (vdiv origin s)) by now rewrite length_map.
  apply (map_nth (fun p => vdiv p s)).
Qed.

Lemma normalize_rows_length (rows : list point) :
  length (normalize_rows rows) = length rows.
Proof.
  unfold normalize_rows, div_scalar, sub_row.
  destruct (Rgt_dec _ _); now rewrite ?length_map.
Qed.

(** With at least ten rows neither index lookup raises. *)
Lemma normalize_landmarks_rows (rows : list point) :
  (10 <= length rows)%nat ->
  _normalize_landmarks (flatten rows) = Ok (flatten (normalize_rows rows)).
Proof.
  intros Hlen. unfold _normalize_landmarks.
  rewrite reshape3_flatten. simpl.
  rewrite row_nth by lia. simpl.
  rewrite row_nth by (unfold sub_row; rewrite length_map; lia). simpl.
  reflexivity.
Qed.

Lemma normalize_landmarks_total (n : nat) (l : list R) :
  (10 <= n)%nat -> length l = (3 * n)%nat ->
  exists rows, flatten rows = l /\ length rows = n /\
    _normalize_landmarks l = Ok (flatten (normalize_rows rows)).
Proof.
  intros Hn Hl.
  destruct (reshape3_total n l Hl) as (rows & _ & Hrows & Hflat).
  exists rows. repeat split; auto.
  rewrite <- Hflat. apply normalize_landmarks_rows. lia.
Qed.

Lemma norm3_nonneg (p : point) : 0 <= norm3 p.
Proof. destruct p as [[x y] z]. apply sqrt_pos. Qed.

Lemma vsub_self (p : point) : vsub p p = origin.
Proof. vec_eq. Qed.

Lemma vsub_origin (p : point) : vsub p origin = p.
Proof. vec_eq. Qed.

Lemma vdiv_one (p : point) : vdiv p 1 = p.
Proof. destruct p as [[x y] z]. unfold vdiv. repeat f_equal; field. Qed.

Lemma vdiv_origin (s : R) : vdiv origin s = origin.
Proof. unfold vdiv, origin, Rdiv. now rewrite Rmult_0_l. Qed.

(** Dividing a vector by its own positive length gives a unit vector. *)
Lemma norm3_vdiv_self (p : point) :
  0 < norm3 p -> norm3 (vdiv p (norm3 p)) = 1.
Proof.
  destruct p as [[x y] z]. unfold norm3, vdiv. intros Hpos.
  set (q := x * x + y * y + z * z) in *.
  assert (Hq : 0 <= q) by (unfold q; nra).
  assert (Hs : sqrt q * sqrt q = q) by now apply sqrt_sqrt.
  replace (x / sqrt q * (x / sqrt q) + y / sqrt q * (y / sqrt q)
           + z / sqrt q * (z / sqrt q))
    with (q / (sqrt q * sqrt q)) by (unfold q in *; field; lra).
  rewrite Hs. replace (q / q) with 1 by (field; nra).
  apply sqrt_1.
Qed.

(** Row 0 of the normalized array is the origin. *)
Lemma normalize_rows_wrist (rows : list point) :
  (1 <= length rows)%nat -> nth 0 (normalize_rows rows) origin = origin.
Proof.
  intros Hlen. unfold normalize_rows.
  destruct (Rgt_dec _ _).
  - rewrite nth_div_scalar by (unfold sub_row; rewrite length_map; lia).
    rewrite nth_sub_row by lia. now rewrite vsub_self, vdiv_origin.
  - rewrite nth_sub_row by lia. apply vsub_self.
Qed.

Lemma sub_row_origin (rows : list point) : sub_row rows origin = rows.
Proof.
  unfold sub_row. rewrite <- (map_id rows) at 2.
  apply map_ext. intros p. apply vsub_origin.
Qed.

Lemma div_scalar_one (rows : list point) : div_scalar rows 1 = rows.
Proof.
  unfold div_scalar. rewrite <- (map_id rows) at 2.
  apply map_ext. intros p. apply vdiv_one.
Qed.

(** Normalizing twice is normalizing once, on the array of rows. *)
Lemma normalize_rows_idempotent (rows : list point) :
  (10 <= length rows)%nat ->
  normalize_rows (normalize_rows rows) = normalize_rows rows.
Proof.
  intros Hlen.
  assert (Hw := normalize_rows_wrist rows ltac:(lia)).
  unfold normalize_rows at 1. rewrite Hw, sub_row_origin.
  unfold normalize_rows in *.
  set (c := sub_row rows (nth 0 rows origin)) in *.
  assert (Hc : length c = length rows) by (unfold c, sub_row; apply length_map).
  destruct (Rgt_dec (norm3 (nth 9 c origin)) 0) as [Hpos|Hzero].
  - rewrite nth_div_scalar by lia.
    rewrite norm3_vdiv_self by exact Hpos.
    destruct (Rgt_dec 1 0) as [_|H]; [|lra].
    apply div_scalar_one.
  - destruct (Rgt_dec (norm3 (nth 9 c origin)) 0); [contradiction|reflexivity].
Qed.

End Normalization.

Section NormalizationClaims.

Lemma reference_distance_norm3 (l : list R) :
  Spec.reference_distance l = norm3 (Spec.centered l 9).
Proof.
  unfold Spec.reference_distance.
  destruct (Spec.centered l 9) as [[x y] z]. unfold norm3.
  now rewrite !Rminus_0_r.
Qed.

(** The output of the code, point by point, in the specification's terms. *)
Lemma normalize_rows_point (rows : list point) (i : nat) :
  (10 <= length rows)%nat -> (i < length rows)%nat ->
  nth i (normalize_rows rows) origin = Spec.normalized (flatten rows) i.
Proof.
  intros Hlen Hi.
  unfold Spec.normalized. rewrite reference_distance_norm3.
  unfold Spec.centered. rewrite !point_at_flatten.
  unfold normalize_rows.
  rewrite nth_sub_row by lia.
  destruct (Rgt_dec _ _) as [Hpos|Hzero];
    destruct (Rlt_dec _ _) as [Hpos'|Hzero']; try (unfold Rgt in *; contradiction).
  - rewrite nth_div_scalar by (unfold sub_row; rewrite length_map; lia).
    now rewrite nth_sub_row by lia.
  - now rewrite nth_sub_row by lia.
Qed.

(** C2.  For every 21-point landmark list the code returns, without
    raising, the list whose point [i] is point [i] minus point 0, divided
    by the Euclidean norm of the centered point 9 when that norm is
    strictly positive and left as it is otherwise; point 0 of the result
    is (0, 0, 0). *)
Theorem normalize_landmarks_centers_then_scales (l : list R) :
  length l = 63%nat ->
  exists out,
    _normalize_landmarks l = Ok out /\
    length out = 63%nat /\
    (forall i, (i < 21)%nat -> Spec.point_at out i = Spec.normalized l i) /\
    Spec.point_at out 0 = (0, 0, 0).
Proof.
  intros Hl.
  destruct (normalize_landmarks_total 21 l) as (rows & Hflat & Hrows & Hnorm);
    [lia | exact Hl |].
  exists (flatten (normalize_rows rows)).
  split; [exact Hnorm|]. split; [|split].
  - rewrite flatten_length, normalize_rows_length. lia.
  - intros i Hi. rewrite point_at_flatten, <- Hflat.
    apply normalize_rows_point; lia.
  - rewrite point_at_flatten. apply normalize_rows_wrist. lia.
Qed.

Lemma normalize_landmarks_centers_then_scales_witness :
  length fist_landmarks = 63%nat /\
  exists out,
    _normalize_landmarks fist_landmarks = Ok out /\
    length out = 63%nat /\
    (forall i, (i < 21)%nat ->
       Spec.point_at out i = Spec.normalized fist_landmarks i) /\
    Spec.point_at out 0 = (0, 0, 0).
Proof.
  split; [reflexivity|].
  apply (normalize_landmarks_centers_then_scales fist_landmarks).
  reflexivity.
Defined.

(** C9.  For every 21-point landmark set whose reference-joint distance
    is not zero, normalizing the normalized set returns it unchanged (in
    exact real arithmetic), and its reference-joint distance is 1. *)
Theorem normalize_landmarks_idempotent (l : list R) :
  length l = 63%nat ->
  Spec.reference_distance l <> 0 ->
  exists out,
    _normalize_landmarks l = Ok out /\
    _normalize_landmarks out = Ok out /\
    Spec.reference_distance out = 1.
Proof.
  intros Hl Hd.
  destruct (normalize_landmarks_total 21 l) as (rows & Hflat & Hrows & Hnorm);
    [lia | exact Hl |].
  exists (flatten (normalize_rows rows)).
  split; [exact Hnorm|]. split.
  - rewrite normalize_landmarks_rows by (rewrite normalize_rows_length; lia).
    now rewrite normalize_rows_idempotent by lia.
  - rewrite reference_distance_norm3. unfold Spec.centered.
    rewrite !point_at_flatten.
    rewrite normalize_rows_wrist, vsub_origin by lia.
    rewrite reference_distance_norm3 in Hd. unfold Spec.centered in Hd.
    rewrite <- Hflat, !point_at_flatten in Hd.
    unfold normalize_rows.
    assert (Hc : nth 9 (sub_row rows (nth 0 rows origin)) origin
                 = vsub (nth 9 rows origin) (nth 0 rows origin))
      by (apply nth_sub_row; lia).
    rewrite Hc.
    pose proof (norm3_nonneg (vsub (nth 9 rows origin) (nth 0 rows origin))).
    destruct (Rgt_dec _ _) as [Hpos|Hzero]; [|unfold Rgt in *; lra].
    rewrite nth_div_scalar by (unfold sub_row; rewrite length_map; lia).
    rewrite Hc. now apply norm3_vdiv_self.
Qed.

Lemma fist_reference_distance : Spec.reference_distance fist_landmarks <> 0.
Proof.
  rewrite reference_distance_norm3.
  unfold Spec.centered, Spec.point_at, fist_landmarks, vsub, norm3. simpl nth.
  apply Rgt_not_eq, sqrt_lt_R0. lra.
Qed.

Lemma normalize_landmarks_idempotent_witness :
  length fist_landmarks = 63%nat /\
  Spec.reference_distance fist_landmarks <> 0 /\
  exists out,
    _normalize_landmarks fist_landmarks = Ok out /\
    _normalize_landmarks out = Ok out /\
    Spec.reference_distance out = 1.
Proof.
  split; [reflexivity|]. split; [exact fist_reference_distance|].
  apply (normalize_landmarks_idempotent fist_landmarks).
  - reflexivity.
  - exact fist_reference_distance.
Defined.

End NormalizationClaims.

(** * Sorting, and the lowest [k] values of a list *)

Section Lowest.

Lemma insert_perm (x : R) (l : list R) : Permutation (x :: l) (insert x l).
Proof.
  induction l as [|y l IH]; simpl; [reflexivity|].
  destruct (Rle_dec x y); [reflexivity|].
  rewrite perm_swap. now constructor.
Qed.

Lemma sort_perm (l : list R) : Permutation l (sort l).
Proof.
  induction l as [|x l IH]; simpl; [reflexivity|].
  rewrite <- insert_perm. now constructor.
Qed.

Lemma sort_length (l : list R) : length (sort l) = length l.
Proof. symmetry. apply Permutation_length, sort_perm. Qed.

Lemma insert_sorted (x : R) (l : list R) :
  StronglySorted Rle l -> StronglySorted Rle (insert x l).
Proof.
  induction 1 as [|y l Hs IH Hall]; simpl.
  - repeat constructor.
  - destruct (Rle_dec x y) as [Hxy|Hxy].
    + constructor; [now constructor|].
      constructor; [exact Hxy|].
      eapply Forall_impl; [|exact Hall]. intros z Hz. simpl in Hz. lra.
    + constructor; [exact IH|].
      rewrite <- insert_perm. constructor; [lra | exact Hall].
Qed.

Lemma sort_sorted (l : list R) : StronglySorted Rle (sort l).
Proof.
  induction l as [|x l IH]; simpl; [constructor | now apply insert_sorted].
Qed.

(** In a sorted list nothing after position [k] is below anything
    before it. *)
Lemma sorted_split (l : list R) :
  StronglySorted Rle l ->
  forall k x y, In x (firstn k l) -> In y (skipn k l) -> x <= y.
Proof.
  induction 1 as [|z l Hs IH Hall]; intros k x y Hx Hy.
  - now destruct k.
  - destruct k as [|k]; simpl in *; [contradiction|].
    destruct Hx as [<-|Hx].
    + rewrite Forall_forall in Hall. apply Hall.
      rewrite <- (firstn_skipn k l). apply in_or_app. now right.
    + now apply (IH k).
Qed.

(** Two sorted lists with the same elements are the same list. *)
Lemma sorted_perm_eq (a : list R) :
  StronglySorted Rle a ->
  forall b, StronglySorted Rle b -> Permutation a b -> a = b.
Proof.
  induction 1 as [|x a Hsa IH Ha]; intros b Hsb Hp.
  - now apply Permutation_nil in Hp.
  - destruct b as [|y b].
    + symmetry in Hp. now apply Permutation_nil in Hp.
    + inversion Hsb as [|? ? Hsb' Hb]; subst.
      rewrite Forall_forall in Ha, Hb.
      assert (Hxy : x = y).
      { assert (Hx : In x (y :: b))
          by (eapply Permutation_in; [exact Hp | now left]).
        assert (Hy : In y (x :: a))
          by (eapply Permutation_in; [symmetry; exact Hp | now left]).
        destruct Hx as [->|Hx]; [reflexivity|].
        destruct Hy as [->|Hy]; [reflexivity|].
        apply Rle_antisym; [now apply Ha | now apply Hb]. }
      subst y. f_equal. apply IH; [exact Hsb'|].
      now apply Permutation_cons_inv in Hp.
Qed.

Lemma sum_app (a b : list R) : Np.sum (a ++ b) = Np.sum a + Np.sum b.
Proof.
  unfold Np.sum. induction a as [|x a IH]; simpl; [lra|].
  rewrite IH. lra.
Qed.

Lemma sum_perm (a b : list R) : Permutation a b -> Np.sum a = Np.sum b.
Proof.
  unfold Np.sum.
  induction 1 as [|x a b Hp IH|x y a|a b c H1 IH1 H2 IH2]; simpl; lra.
Qed.

Lemma sum_nonneg (l : list R) : Forall (fun x => 0 <= x) l -> 0 <= Np.sum l.
Proof.
  unfold Np.sum. induction 1 as [|x l Hx Hl IH]; simpl; lra.
Qed.

(** Sorting a list whose two parts are already separated sorts the
    parts. *)
Lemma sort_separated (chosen rest : list R) :
  (forall x y, In x chosen -> In y rest -> x <= y) ->
  sort (chosen ++ rest) = sort chosen ++ sort rest.
Proof.
  intros Hsep.
  apply sorted_perm_eq; [apply sort_sorted | |].
  - assert (Hsep' : forall x y,
               In x (sort chosen) -> In y (sort rest) -> x <= y).
    { intros x y Hx Hy. apply Hsep.
      - eapply Permutation_in; [symmetry; apply sort_perm | exact Hx].
      - eapply Permutation_in; [symmetry; apply sort_perm | exact Hy]. }
    generalize (sort_sorted chosen). revert Hsep'.
    generalize (sort chosen) as c. induction c as [|x c IH]; intros Hc Hs.
    + apply sort_sorted.
    + inversion Hs as [|? ? Hs' Hall]; subst. simpl. constructor.
      * apply IH; [|exact Hs']. intros u v Hu Hv. apply Hc; [now right|exact Hv].
      * apply Forall_app. split; [exact Hall|].
        rewrite Forall_forall. intros v Hv. apply Hc; [now left|exact Hv].
  - rewrite <- sort_perm. apply Permutation_app; apply sort_perm.
Qed.

(** The sum of [k] lowest values does not depend on which ones are
    taken among equal values, nor on their order: it is the sum of the
    first [k] values of the sorted list. *)
Lemma lowest_sum_unique (k : nat) (ds chosen : list R) :
  Spec.lowest k ds chosen -> Np.sum chosen = Np.sum (firstn k (sort ds)).
Proof.
  intros (Hk & rest & Hp & Hsep).
  assert (Hs : sort ds = sort chosen ++ sort rest).
  { rewrite <- sort_separated by exact Hsep.
    apply sorted_perm_eq; try apply sort_sorted.
    rewrite <- !sort_perm. exact Hp. }
  rewrite Hs, firstn_app, sort_length, Hk, Nat.sub_diag. simpl.
  rewrite app_nil_r, <- Hk, <- (sort_length chosen), firstn_all.
  apply sum_perm, sort_perm.
Qed.

(** The first [k] values of the sorted list are [k] lowest values. *)
Lemma firstn_sort_lowest (k : nat) (ds : list R) :
  (k <= length ds)%nat -> Spec.lowest k ds (firstn k (sort ds)).
Proof.
  intros Hk. split.
  - rewrite length_firstn, sort_length. lia.
  - exists (skipn k (sort ds)). split.
    + rewrite firstn_skipn. apply sort_perm.
    + apply sorted_split, sort_sorted.
Qed.

End Lowest.

(** * The similarity of one entry *)

Section Similarity.

Lemma zip_sub_flatten (a b : list point) :
  zip_sub (flatten a) (flatten b) = flatten (zip_vsub a b).
Proof.
  revert b. induction a as [|[[x y] z] a IH]; intros [|[[u v] w] b];
    simpl; try reflexivity.
  now rewrite IH.
Qed.

Lemma zip_vsub_length (a b : list point) :
  length a = length b -> length (zip_vsub a b) = length a.
Proof.
  revert b. induction a as [|p a IH]; intros [|q b] H; simpl in *;
    try reflexivity; try discriminate.
  f_equal. apply IH. lia.
Qed.

Lemma nth_zip_vsub (a b : list point) :
  length a = length b ->
  forall i, (i < length a)%nat ->
  nth i (zip_vsub a b) origin = vsub (nth i a origin) (nth i b origin).
Proof.
  revert b. induction a as [|p a IH]; intros [|q b] H i Hi; simpl in *;
    try lia.
  destruct i as [|i]; [reflexivity|]. apply IH; lia.
Qed.

Lemma joint_distance_rows (a b : list point) (i : nat) :
  Spec.joint_distance (flatten a) (flatten b) i
  = norm3 (vsub (nth i a origin) (nth i b origin)).
Proof.
  unfold Spec.joint_distance. rewrite !point_at_flatten.
  destruct (nth i a origin) as [[x y] z].
  now destruct (nth i b origin) as [[u v] w].
Qed.

(** What the code takes the norms of are the 21 per-joint distances. *)
Lemma distances_are_joint_distances (a b : list point) :
  length a = 21%nat -> length b = 21%nat ->
  norm_axis1 (zip_vsub a b) = Spec.joint_distances (flatten a) (flatten b).
Proof.
  intros Ha Hb. unfold norm_axis1, Spec.joint_distances, Spec.joints.
  apply (nth_ext _ _ 0 0).
  - rewrite !length_map, length_seq. rewrite zip_vsub_length; lia.
  - intros i Hi.
    rewrite length_map, zip_vsub_length in Hi by lia.
    rewrite (nth_indep _ 0 (norm3 origin))
      by (rewrite length_map, zip_vsub_length; lia).
    rewrite (map_nth norm3).
    rewrite (nth_indep _ 0 (Spec.joint_distance (flatten a) (flatten b) 0))
      by (rewrite length_map, length_seq; lia).
    rewrite (map_nth (Spec.joint_distance (flatten a) (flatten b))).
    rewrite seq_nth by lia. simpl.
    rewrite joint_distance_rows. f_equal. apply nth_zip_vsub; lia.
Qed.

Lemma int_nonneg_floor (x : R) (z : Z) :
  0 <= x -> IZR z <= x < IZR z + 1 -> int x = z.
Proof.
  intros Hx Hz. unfold int.
  destruct (Rle_dec 0 x); [|contradiction].
  symmetry. apply Int_part_spec. lra.
Qed.

(** [max(1, int(21 * 0.8))] is 16. *)
Lemma top_k_21 : top_k 21 = 16%nat.
Proof.
  unfold top_k.
  replace (INR 21) with 21 by (simpl; lra).
  rewrite (int_nonneg_floor _ 16); [reflexivity | lra | lra].
Qed.

Lemma similarity_of_range (d : R) :
  0 <= d -> 0 < Spec.similarity_of d <= 1.
Proof.
  intros Hd. unfold Spec.similarity_of. split.
  - apply Rdiv_lt_0_compat; lra.
  - apply (Rmult_le_reg_r (1 + d)); [lra|].
    unfold Rdiv. rewrite Rmult_assoc, Rinv_l; lra.
Qed.

Lemma similarity_of_decreasing (d1 d2 : R) :
  0 <= d1 -> d1 < d2 -> Spec.similarity_of d2 < Spec.similarity_of d1.
Proof.
  intros H1 H12. unfold Spec.similarity_of, Rdiv. rewrite !Rmult_1_l.
  apply Rinv_lt_contravar; nra.
Qed.

Lemma norm_axis1_nonneg (rows : list point) :
  Forall (fun x => 0 <= x) (norm_axis1 rows).
Proof.
  unfold norm_axis1. rewrite Forall_forall. intros x Hx.
  apply in_map_iff in Hx. destruct Hx as (p & <- & _). apply norm3_nonneg.
Qed.

Lemma mean_nonneg (l : list R) : Forall (fun x => 0 <= x) l -> 0 <= mean l.
Proof.
  intros Hl. unfold mean, Rdiv.
  apply Rmult_le_pos; [now apply sum_nonneg|].
  destruct l as [|x l]; [simpl; rewrite Rinv_0; lra|].
  apply Rlt_le, Rinv_0_lt_compat, lt_0_INR. simpl. lia.
Qed.

Lemma lowest_norms_nonneg (k : nat) (rows : list point) :
  Forall (fun x => 0 <= x) (firstn k (sort (norm_axis1 rows))).
Proof.
  rewrite Forall_forall. intros x Hx.
  assert (Hx' : In x (sort (norm_axis1 rows)))
    by (rewrite <- (firstn_skipn k); apply in_or_app; now left).
  clear Hx. rename Hx' into Hx.
  apply (Permutation_in _ (Permutation_sym (sort_perm _))) in Hx.
  pose proof (norm_axis1_nonneg rows) as H. rewrite Forall_forall in H.
  now apply H.
Qed.

(** Whatever the arrays, a similarity that is computed lies in (0,1]. *)
Lemma similarity_to_range (norm_landmarks stored : list R) (s : R) :
  similarity_to norm_landmarks stored = Ok s -> 0 < s <= 1.
Proof.
  unfold similarity_to.
  destruct (_normalize_landmarks stored) as [ns|]; [simpl|discriminate].
  destruct (sub1d norm_landmarks ns) as [diff|]; [simpl|discriminate].
  destruct (reshape3 diff) as [rows|]; [simpl|discriminate].
  unfold partition. destruct (Nat.ltb _ _); [simpl|discriminate].
  intros [= <-]. apply similarity_of_range, mean_nonneg, lowest_norms_nonneg.
Qed.

(** The similarity of a 21-point stored array to a 21-point normalized
    query, as the code computes it. *)
Lemma similarity_to_rows (nq stored : list point) :
  length nq = 21%nat -> length stored = 21%nat ->
  similarity_to (flatten nq) (flatten stored)
  = Ok (Spec.similarity_of
          (Np.sum (firstn 16 (sort (Spec.joint_distances
                     (flatten nq) (flatten (normalize_rows stored))))) / 16)).
Proof.
  intros Hq Hs.
  assert (Hds : length (Spec.joint_distances (flatten nq)
                          (flatten (normalize_rows stored))) = 21%nat)
    by (unfold Spec.joint_distances; now rewrite length_map, length_seq).
  unfold similarity_to.
  rewrite normalize_landmarks_rows by lia. cbn [Py.bind].
  unfold sub1d.
  rewrite !flatten_length, normalize_rows_length, Hq, Hs, Nat.eqb_refl.
  cbn [Py.bind]. rewrite zip_sub_flatten, reshape3_flatten. cbn [Py.bind].
  rewrite distances_are_joint_distances
    by (try rewrite normalize_rows_length; lia).
  rewrite Hds, top_k_21. unfold partition. rewrite Hds.
  change (Nat.ltb (16 - 1) 21) with true. cbn [Py.bind].
  unfold mean. rewrite length_firstn, sort_length, Hds.
  replace (INR (Nat.min 16 21)) with 16 by (simpl; lra).
  reflexivity.
Qed.

End Similarity.

(** * The search loop *)

Section SearchLoop.

Variable norm_landmarks : list R.

Lemma visit_score (st : search) (gesture_id : string) (g : gesture) :
  visit norm_landmarks st (gesture_id, g)
  = match score norm_landmarks g with
    | None => st
    | Some s =>
        if Rgt_dec s (best_score st) then leader gesture_id g s else st
    end.
Proof.
  unfold visit, score. destruct (landmarks g) as [[|x stored]|]; try reflexivity.
  destruct (similarity_to _ _); reflexivity.
Qed.

Lemma score_range (g : gesture) (s : R) :
  score norm_landmarks g = Some s -> 0 < s <= 1.
Proof.
  unfold score. destruct (landmarks g) as [[|x stored]|]; try discriminate.
  destruct (similarity_to _ _) eqn:E; [|discriminate].
  intros [= <-]. eapply similarity_to_range, E.
Qed.

Lemma scan_app (l1 l2 : library) :
  scan norm_landmarks (l1 ++ l2)
  = fold_left (visit norm_landmarks) l2 (scan norm_landmarks l1).
Proof. unfold scan. apply fold_left_app. Qed.

(** Entries that do not beat the current best leave the state alone. *)
Lemma fold_visit_keeps (l : library) (st : search) :
  (forall gid g s, In (gid, g) l -> score norm_landmarks g = Some s ->
                   s <= best_score st) ->
  fold_left (visit norm_landmarks) l st = st.
Proof.
  revert st. induction l as [|[gid g] l IH]; intros st H; [reflexivity|].
  cbn [fold_left]. rewrite visit_score.
  destruct (score norm_landmarks g) as [s|] eqn:E.
  - destruct (Rgt_dec s (best_score st)) as [Hgt|_].
    + specialize (H gid g s (or_introl eq_refl) E). lra.
    + apply IH. intros gid' g' s' Hin. apply (H gid'). now right.
  - apply IH. intros gid' g' s' Hin. apply (H gid'). now right.
Qed.

(** Entries all strictly below [s] leave the best score below [s]. *)
Lemma fold_visit_below (s : R) (l : library) (st : search) :
  (forall gid g s', In (gid, g) l -> score norm_landmarks g = Some s' ->
                    s' < s) ->
  best_score st < s ->
  best_score (fold_left (visit norm_landmarks) l st) < s.
Proof.
  revert st. induction l as [|[gid g] l IH]; intros st H Hst; [exact Hst|].
  cbn [fold_left]. apply IH; [intros gid' g' s' Hin; apply (H gid'); now right|].
  rewrite visit_score.
  destruct (score norm_landmarks g) as [s'|] eqn:E; [|exact Hst].
  destruct (Rgt_dec s' (best_score st)); [|exact Hst].
  simpl. apply (H gid g s'); [now left | exact E].
Qed.

(** An entry without a score can be taken out of the library. *)
Lemma scan_without (l1 l2 : library) (gesture_id : string) (g : gesture) :
  score norm_landmarks g = None ->
  scan norm_landmarks (l1 ++ (gesture_id, g) :: l2)
  = scan norm_landmarks (l1 ++ l2).
Proof.
  intros H. rewrite !scan_app. cbn [fold_left]. now rewrite visit_score, H.
Qed.

(** The first entry among those with the highest score ends the loop as
    the best one. *)
Lemma scan_first_best (l1 l2 : library) (gesture_id : string) (g : gesture)
    (s : R) :
  score norm_landmarks g = Some s ->
  (forall gid' g' s', In (gid', g') l1 ->
     score norm_landmarks g' = Some s' -> s' < s) ->
  (forall gid' g' s', In (gid', g') l2 ->
     score norm_landmarks g' = Some s' -> s' <= s) ->
  scan norm_landmarks (l1 ++ (gesture_id, g) :: l2) = leader gesture_id g s.
Proof.
  intros Hs H1 H2. rewrite scan_app. cbn [fold_left].
  assert (Hbelow : best_score (scan norm_landmarks l1) < s).
  { unfold scan. apply fold_visit_below; [exact H1|].
    simpl. apply score_range in Hs. lra. }
  rewrite visit_score, Hs.
  destruct (Rgt_dec s (best_score (scan norm_landmarks l1))) as [_|Hn];
    [|unfold Rgt in Hn; lra].
  apply fold_visit_keeps. exact H2.
Qed.

End SearchLoop.

Section Matcher.

Lemma find_similar_gesture_eq (lib : library) (q : list R) (threshold : R) :
  q <> [] -> lib <> [] ->
  find_similar_gesture lib q threshold
  = match _normalize_landmarks q with
    | Raise _ => None
    | Ok nq =>
        if Rge_dec (best_score (scan nq lib)) threshold
        then best_match (scan nq lib) else None
    end.
Proof.
  intros Hq Hlib. unfold find_similar_gesture.
  destruct q; [contradiction|]. destruct lib; [contradiction|]. reflexivity.
Qed.

Lemma joint_distance_self (a : list R) (i : nat) :
  Spec.joint_distance a a i = 0.
Proof.
  unfold Spec.joint_distance. destruct (Spec.point_at a i) as [[x y] z].
  replace ((x - x) * (x - x) + (y - y) * (y - y) + (z - z) * (z - z))
    with 0 by ring.
  apply sqrt_0.
Qed.

Lemma sum_zeros (l : list R) : Forall (fun x => x = 0) l -> Np.sum l = 0.
Proof.
  unfold Np.sum. induction 1 as [|x l Hx Hl IH]; simpl; lra.
Qed.

(** A 21-point array compared with its own normalization scores 1. *)
Lemma similarity_to_self (rows : list point) :
  length rows = 21%nat ->
  similarity_to (flatten (normalize_rows rows)) (flatten rows) = Ok 1.
Proof.
  intros Hlen.
  rewrite similarity_to_rows by (try rewrite normalize_rows_length; lia).
  f_equal. rewrite sum_zeros.
  - unfold Spec.similarity_of. field.
  - rewrite Forall_forall. intros x Hx.
    assert (Hx' : In x (sort (Spec.joint_distances
                                (flatten (normalize_rows rows))
                                (flatten (normalize_rows rows))))).
    { rewrite <- (firstn_skipn 16 (sort _)). apply in_or_app. left. exact Hx. }
    apply (Permutation_in _ (Permutation_sym (sort_perm _))) in Hx'.
    unfold Spec.joint_distances in Hx'. apply in_map_iff in Hx'.
    destruct Hx' as (i & <- & _). apply joint_distance_self.
Qed.

End Matcher.

(** * The matcher: claims *)

Section MatcherClaims.

Lemma joint_distances_nonneg (a b : list R) :
  Forall (fun x => 0 <= x) (Spec.joint_distances a b).
Proof.
  rewrite Forall_forall. intros x Hx. unfold Spec.joint_distances in Hx.
  apply in_map_iff in Hx. destruct Hx as (i & <- & _).
  unfold Spec.joint_distance.
  destruct (Spec.point_at a i) as [[x y] z].
  destruct (Spec.point_at b i) as [[u v] w]. apply sqrt_pos.
Qed.

Lemma lowest_nonneg (k : nat) (ds chosen : list R) :
  Forall (fun x => 0 <= x) ds -> Spec.lowest k ds chosen ->
  Forall (fun x => 0 <= x) chosen.
Proof.
  intros Hds (_ & rest & Hp & _). rewrite Forall_forall in *.
  intros x Hx. apply Hds.
  apply (Permutation_in _ (Permutation_sym Hp)), in_or_app. now left.
Qed.

(** C1, amended.  For every 21-point query and every library entry with
    a 21-point landmark array: both normalizations succeed; the code
    works on the 21 per-joint Euclidean distances between them; [k] is
    16; the similarity is [1 / (1 + avg_distance)] for [avg_distance]
    the mean of 16 lowest distances, whose sum does not depend on the
    choice among equal distances; that value is offered to the loop as
    the entry's similarity; it lies in (0,1], and [1 / (1 + d)] is
    strictly decreasing in [d >= 0]. *)
Theorem similarity_of_a_21_point_entry (q stored : list R) :
  length q = 63%nat -> length stored = 63%nat ->
  exists nq ns chosen,
    _normalize_landmarks q = Ok nq /\
    _normalize_landmarks stored = Ok ns /\
    length (Spec.joint_distances nq ns) = 21%nat /\
    top_k 21 = 16%nat /\
    Spec.lowest 16 (Spec.joint_distances nq ns) chosen /\
    (forall chosen', Spec.lowest 16 (Spec.joint_distances nq ns) chosen' ->
                     Np.sum chosen' = Np.sum chosen) /\
    let avg_distance := Np.sum chosen / 16 in
    let similarity := Spec.similarity_of avg_distance in
    0 <= avg_distance /\
    similarity_to nq stored = Ok similarity /\
    (forall st gid g, landmarks g = Some stored ->
       visit nq st (gid, g)
       = if Rgt_dec similarity (best_score st)
         then leader gid g similarity else st) /\
    0 < similarity <= 1 /\
    (forall d1 d2, 0 <= d1 -> d1 < d2 ->
       Spec.similarity_of d2 < Spec.similarity_of d1).
Proof.
  intros Hq Hs.
  destruct (normalize_landmarks_total 21 q) as (rq & Hfq & Hrq & Hnq);
    [lia | exact Hq |].
  destruct (normalize_landmarks_total 21 stored) as (rs & Hfs & Hrs & Hns);
    [lia | exact Hs |].
  set (nq := flatten (normalize_rows rq)) in *.
  set (ns := flatten (normalize_rows rs)) in *.
  set (ds := Spec.joint_distances nq ns).
  assert (Hds : length ds = 21%nat)
    by (unfold ds, Spec.joint_distances; now rewrite length_map, length_seq).
  assert (Hlow : Spec.lowest 16 ds (firstn 16 (sort ds)))
    by (apply firstn_sort_lowest; lia).
  assert (Havg : 0 <= Np.sum (firstn 16 (sort ds)) / 16).
  { apply Rmult_le_pos; [|lra].
    apply sum_nonneg, (lowest_nonneg 16 ds); [|exact Hlow].
    apply joint_distances_nonneg. }
  assert (Hsim : similarity_to nq stored
                 = Ok (Spec.similarity_of (Np.sum (firstn 16 (sort ds)) / 16))).
  { rewrite <- Hfs. unfold nq.
    apply similarity_to_rows; [now rewrite normalize_rows_length | exact Hrs]. }
  exists nq, ns, (firstn 16 (sort ds)).
  repeat match goal with |- _ /\ _ => split end;
    auto using top_k_21, similarity_of_decreasing.
  - intros chosen' H'. now rewrite (lowest_sum_unique 16 ds chosen' H').
  - cbv zeta. split; [exact Havg|]. split; [exact Hsim|].
    split; [|split].
    + intros st gid g Hg. unfold visit. rewrite Hg.
      destruct stored as [|x stored]; [discriminate|]. now rewrite Hsim.
    + now apply similarity_of_range.
    + exact similarity_of_decreasing.
Qed.

Lemma similarity_of_a_21_point_entry_witness :
  length fist_landmarks = 63%nat /\ length palm_landmarks = 63%nat /\
  exists nq ns chosen,
    _normalize_landmarks fist_landmarks = Ok nq /\
    _normalize_landmarks palm_landmarks = Ok ns /\
    length (Spec.joint_distances nq ns) = 21%nat /\
    top_k 21 = 16%nat /\
    Spec.lowest 16 (Spec.joint_distances nq ns) chosen /\
    (forall chosen', Spec.lowest 16 (Spec.joint_distances nq ns) chosen' ->
                     Np.sum chosen' = Np.sum chosen) /\
    let avg_distance := Np.sum chosen / 16 in
    let similarity := Spec.similarity_of avg_distance in
    0 <= avg_distance /\
    similarity_to nq palm_landmarks = Ok similarity /\
    (forall st gid g, landmarks g = Some palm_landmarks ->
       visit nq st (gid, g)
       = if Rgt_dec similarity (best_score st)
         then leader gid g similarity else st) /\
    0 < similarity <= 1 /\
    (forall d1 d2, 0 <= d1 -> d1 < d2 ->
       Spec.similarity_of d2 < Spec.similarity_of d1).
Proof.
  split; [reflexivity|]. split; [reflexivity|].
  apply (similarity_of_a_21_point_entry fist_landmarks palm_landmarks);
    reflexivity.
Defined.

(** C1 as stated fails: an entry whose landmark array is not empty but
    holds one point only is given no similarity, because row 9 of its
    array does not exist and the exception ends the comparison. *)
Lemma one_point_entry_has_no_similarity :
  ~ (forall q stored : list R,
       length q = 63%nat -> stored <> [] ->
       exists nq similarity,
         _normalize_landmarks q = Ok nq /\
         similarity_to nq stored = Ok similarity).
Proof.
  intros H.
  destruct (H fist_landmarks [5/10; 5/10; 0]) as (nq & s & _ & Hs);
    [reflexivity | discriminate |].
  unfold similarity_to, _normalize_landmarks in Hs. simpl in Hs.
  discriminate.
Qed.

Lemma score_self (rows : list point) (g : gesture) :
  length rows = 21%nat -> landmarks g = Some (flatten rows) ->
  score (flatten (normalize_rows rows)) g = Some 1.
Proof.
  intros Hlen Hg. unfold score. rewrite Hg.
  rewrite similarity_to_self by exact Hlen.
  destruct rows as [|[[x y] z] rows]; [discriminate|reflexivity].
Qed.

(** C3.  With a library that holds the single pose "fist", whose
    landmark array is the 21-point array [F], the query [F] leaves the
    loop with best score exactly 1 and the matcher returns the pose with
    identifier "fist", for every threshold at most 1. *)
Theorem exact_query_returns_the_pose_with_similarity_one
    (F : list R) (g : gesture) (threshold : R) :
  length F = 63%nat -> landmarks g = Some F -> threshold <= 1 ->
  (exists nq, _normalize_landmarks F = Ok nq /\
              best_score (scan nq [("fist"%string, g)]) = 1 /\
              best_gesture_id (scan nq [("fist"%string, g)])
              = Some "fist"%string) /\
  find_similar_gesture [("fist"%string, g)] F threshold
  = Some {| id := "fist"; entry := g |}.
Proof.
  intros HF Hg Hth.
  destruct (normalize_landmarks_total 21 F) as (rows & Hflat & Hrows & Hnorm);
    [lia | exact HF |].
  assert (Hscan : scan (flatten (normalize_rows rows)) [("fist"%string, g)]
                  = leader "fist" g 1).
  { apply (scan_first_best _ [] []).
    - apply score_self; [exact Hrows | now rewrite Hflat].
    - intros ? ? ? [].
    - intros ? ? ? []. }
  split.
  - exists (flatten (normalize_rows rows)). now rewrite Hscan.
  - rewrite find_similar_gesture_eq;
      [| intros ->; discriminate | discriminate].
    rewrite Hnorm, Hscan. simpl.
    destruct (Rge_dec 1 threshold) as [_|Hn]; [reflexivity | lra].
Qed.

Lemma exact_query_returns_the_pose_with_similarity_one_witness :
  length fist_landmarks = 63%nat /\
  landmarks fist = Some fist_landmarks /\
  default_threshold <= 1 /\
  (exists nq, _normalize_landmarks fist_landmarks = Ok nq /\
              best_score (scan nq [("fist"%string, fist)]) = 1 /\
              best_gesture_id (scan nq [("fist"%string, fist)])
              = Some "fist"%string) /\
  find_similar_gesture [("fist"%string, fist)] fist_landmarks
                       default_threshold
  = Some {| id := "fist"; entry := fist |}.
Proof.
  assert (Hth : default_threshold <= 1) by (unfold default_threshold; lra).
  split; [reflexivity|]. split; [reflexivity|]. split; [exact Hth|].
  apply (exact_query_returns_the_pose_with_similarity_one
           fist_landmarks fist default_threshold);
    [reflexivity | reflexivity | exact Hth].
Defined.

(** C6.  When the loop ends with a best entry, the matcher returns that
    entry if its score equals the threshold, and returns nothing if its
    score is strictly below the threshold. *)
Theorem threshold_is_inclusive
    (lib : library) (q nq : list R) (threshold : R) (m : matched) :
  q <> [] ->
  _normalize_landmarks q = Ok nq ->
  best_match (scan nq lib) = Some m ->
  (best_score (scan nq lib) = threshold ->
     find_similar_gesture lib q threshold = Some m) /\
  (best_score (scan nq lib) < threshold ->
     find_similar_gesture lib q threshold = None).
Proof.
  intros Hq Hnq Hm.
  assert (Hlib : lib <> []) by (intros ->; discriminate).
  rewrite (find_similar_gesture_eq lib q threshold Hq Hlib), Hnq.
  split; intros Hs; destruct (Rge_dec _ _) as [Hge|Hlt]; auto; lra.
Qed.

Lemma fist_rows : flatten (rows_of fist_landmarks) = fist_landmarks.
Proof. reflexivity. Qed.

Lemma fist_normalized :
  _normalize_landmarks fist_landmarks
  = Ok (flatten (normalize_rows (rows_of fist_landmarks))).
Proof.
  rewrite <- fist_rows at 1. apply normalize_landmarks_rows. simpl. lia.
Qed.

Lemma fist_scores_one :
  score (flatten (normalize_rows (rows_of fist_landmarks))) fist = Some 1.
Proof. apply score_self; reflexivity. Qed.

Lemma fist_alone_scan :
  scan (flatten (normalize_rows (rows_of fist_landmarks)))
       [("fist_default"%string, fist)]
  = leader "fist_default" fist 1.
Proof.
  apply (scan_first_best _ [] []);
    [exact fist_scores_one | intros ? ? ? [] | intros ? ? ? []].
Qed.

Lemma threshold_is_inclusive_witness :
  fist_landmarks <> [] /\
  _normalize_landmarks fist_landmarks
  = Ok (flatten (normalize_rows (rows_of fist_landmarks))) /\
  scan (flatten (normalize_rows (rows_of fist_landmarks)))
       [("fist_default"%string, fist)]
  = leader "fist_default" fist 1 /\
  find_similar_gesture [("fist_default"%string, fist)] fist_landmarks 1
  = Some {| id := "fist_default"; entry := fist |} /\
  find_similar_gesture [("fist_default"%string, fist)] fist_landmarks 2
  = None.
Proof.
  assert (Hq : fist_landmarks <> []) by discriminate.
  split; [exact Hq|]. split; [exact fist_normalized|].
  split; [exact fist_alone_scan|]. split.
  - apply (threshold_is_inclusive
             [("fist_default"%string, fist)] fist_landmarks
             (flatten (normalize_rows (rows_of fist_landmarks))) 1
             {| id := "fist_default"; entry := fist |});
      [exact Hq | exact fist_normalized | now rewrite fist_alone_scan
      | now rewrite fist_alone_scan].
  - apply (threshold_is_inclusive
             [("fist_default"%string, fist)] fist_landmarks
             (flatten (normalize_rows (rows_of fist_landmarks))) 2
             {| id := "fist_default"; entry := fist |});
      [exact Hq | exact fist_normalized | now rewrite fist_alone_scan |].
    rewrite fist_alone_scan. simpl. lra.
Defined.

(** C7.  The entry that comes first among the entries with the highest
    score (every earlier score strictly lower, no later score higher,
    equal ones allowed) is the one the loop keeps and the matcher
    returns; the result is a function of the library, in its order, and
    of the query. *)
Theorem first_of_the_best_entries_is_returned
    (lib1 lib2 : library) (gid : string) (g : gesture) (s : R)
    (q nq : list R) (threshold : R) :
  q <> [] ->
  _normalize_landmarks q = Ok nq ->
  score nq g = Some s ->
  (forall gid' g' s', In (gid', g') lib1 -> score nq g' = Some s' -> s' < s) ->
  (forall gid' g' s', In (gid', g') lib2 -> score nq g' = Some s' -> s' <= s) ->
  threshold <= s ->
  scan nq (lib1 ++ (gid, g) :: lib2) = leader gid g s /\
  find_similar_gesture (lib1 ++ (gid, g) :: lib2) q threshold
  = Some {| id := gid; entry := g |}.
Proof.
  intros Hq Hnq Hs H1 H2 Hth.
  assert (Hscan := scan_first_best nq lib1 lib2 gid g s Hs H1 H2).
  split; [exact Hscan|].
  rewrite find_similar_gesture_eq;
    [| exact Hq | intros E; symmetry in E; now apply app_cons_not_nil in E].
  rewrite Hnq, Hscan. simpl.
  destruct (Rge_dec s threshold) as [_|Hn]; [reflexivity | lra].
Qed.

Lemma first_of_the_best_entries_is_returned_witness :
  scan (flatten (normalize_rows (rows_of fist_landmarks)))
       ([] ++ ("first"%string, fist) :: [("second"%string, fist)])
  = leader "first" fist 1 /\
  find_similar_gesture
    ([] ++ ("first"%string, fist) :: [("second"%string, fist)])
    fist_landmarks default_threshold
  = Some {| id := "first"; entry := fist |}.
Proof.
  apply (first_of_the_best_entries_is_returned
           [] [("second"%string, fist)] "first" fist 1 fist_landmarks
           (flatten (normalize_rows (rows_of fist_landmarks)))
           default_threshold).
  - discriminate.
  - exact fist_normalized.
  - exact fist_scores_one.
  - intros ? ? ? [].
  - intros gid' g' s' [E|[]] Hs'. inversion E; subst g'.
    rewrite fist_scores_one in Hs'. inversion Hs'. lra.
  - unfold default_threshold. lra.
Defined.

End MatcherClaims.

(** * The frame channel *)

Section FrameChannel.

Import CameraOperator.

Variable frame : Type.

(** [discard_old] does what the loop does, pass after pass. *)
Lemma discard_old_loop (q : queue frame) :
  discard_old q
  = match discard_step q with
    | None => q
    | Some q' => discard_old q'
    end.
Proof. destruct q; reflexivity. Qed.

Lemma discard_old_empties (q : queue frame) : discard_old q = [].
Proof. induction q as [|f q IH]; [reflexivity | exact IH]. Qed.

(** Publishing never waits and leaves exactly the new frame. *)
Lemma publish_returns (q : queue frame) (f : frame) :
  publish q f = Returns tt [f].
Proof. unfold publish. now rewrite discard_old_empties. Qed.

Lemma publish_all_last (fs : list frame) :
  forall (q : queue frame) (f : frame),
  publish_all q (fs ++ [f]) = Returns tt [f].
Proof.
  induction fs as [|f' fs IH]; intros q f; simpl.
  - now rewrite publish_returns.
  - rewrite publish_returns. apply IH.
Qed.

(** Whatever is published, and however often, the queue never holds
    more than [maxsize] frames afterwards. *)
Lemma publish_all_bounded (fs : list frame) :
  forall q q' : queue frame,
  (length q <= maxsize)%nat ->
  publish_all q fs = Returns tt q' -> (length q' <= maxsize)%nat.
Proof.
  induction fs as [|f fs IH]; intros q q' Hq; simpl.
  - now intros [= <-].
  - rewrite publish_returns. apply IH. simpl. unfold maxsize. lia.
Qed.

(** C4.  After any number of publishes in a row, at least one, with the
    last frame [f] and no take in between: every publish has returned,
    the queue holds one frame, the next take returns [f], the take after
    it returns nothing, and neither take waits. *)
Theorem only_the_latest_frame_is_taken
    (q : queue frame) (fs : list frame) (f : frame) :
  exists q1 q2,
    publish_all q (fs ++ [f]) = Returns tt q1 /\
    length q1 = 1%nat /\
    get_frame q1 = Returns (Some f) q2 /\
    get_frame q2 = Returns None q2.
Proof.
  exists [f], []. rewrite publish_all_last. repeat split.
Qed.

End FrameChannel.

(** * The cooldown gate *)

Section CooldownGate.

Import SignToSpeechApp.

Lemma differs_spec (current : option string) (gesture_id : string) :
  differs current gesture_id = true <-> current <> Some gesture_id.
Proof.
  unfold differs. destruct current as [c|].
  - rewrite negb_true_iff, String.eqb_neq. split; congruence.
  - split; [discriminate | reflexivity].
Qed.

Lemma fires_spec (g : gate) (t : R) (m : matched) :
  fires g t m = true <->
  current_gesture g <> Some (id m) \/ t - last_gesture_time g > 5.
Proof.
  unfold fires, cooldown. rewrite orb_true_iff, differs_spec.
  destruct (Rgt_dec (t - last_gesture_time g) 5) as [H|H]; intuition congruence.
Qed.

Lemma handle_fires (g : gate) (t : R) (m : matched) :
  fires g t m = true ->
  _handle_gesture_recognition g t m
  = ({| current_gesture := Some (id m); last_gesture_time := t |},
     [SetRecognizedText (message (entry m)); Speak (message (entry m))]).
Proof. unfold _handle_gesture_recognition. now intros ->. Qed.

Lemma handle_silent (g : gate) (t : R) (m : matched) :
  fires g t m = false -> _handle_gesture_recognition g t m = (g, []).
Proof. unfold _handle_gesture_recognition. now intros ->. Qed.

(** C5.  A match fires exactly when its identifier differs from the
    stored one or more than 5 seconds have passed since the stored time;
    when it fires, the text is shown and spoken and both stored fields
    are replaced; when it does not, nothing happens; a sequence of
    matches is handled one after the other; and of three matches of the
    same identifier, the later two no more than 5 seconds after the
    first, exactly one fires when the stored identifier was another one
    (as at start-up, where none is stored). *)
Theorem cooldown_gate_fires_once_per_held_gesture
    (g : gate) (t : R) (m : matched) :
  (fires g t m = true <->
     current_gesture g <> Some (id m) \/ t - last_gesture_time g > 5) /\
  (fires g t m = true ->
     _handle_gesture_recognition g t m
     = ({| current_gesture := Some (id m); last_gesture_time := t |},
        [SetRecognizedText (message (entry m)); Speak (message (entry m))])) /\
  (fires g t m = false -> _handle_gesture_recognition g t m = (g, [])) /\
  (forall ms,
     handle_all g ((t, m) :: ms)
     = (fst (handle_all (fst (_handle_gesture_recognition g t m)) ms),
        snd (_handle_gesture_recognition g t m)
        :: snd (handle_all (fst (_handle_gesture_recognition g t m)) ms))) /\
  (forall m2 m3 t2 t3,
     id m2 = id m -> id m3 = id m ->
     current_gesture g <> Some (id m) ->
     t2 - t <= 5 -> t3 - t <= 5 ->
     triggers (snd (handle_all g [(t, m); (t2, m2); (t3, m3)])) = 1%nat).
Proof.
  split; [apply fires_spec|].
  split; [apply handle_fires|].
  split; [apply handle_silent|].
  split.
  - intros ms. cbn [handle_all].
    destruct (_handle_gesture_recognition g t m) as [g1 out].
    cbn [fst snd]. now destruct (handle_all g1 ms).
  - intros m2 m3 t2 t3 E2 E3 Hnew H2 H3.
    assert (F1 : fires g t m = true) by (apply fires_spec; now left).
    set (g1 := {| current_gesture := Some (id m); last_gesture_time := t |}).
    assert (F2 : fires g1 t2 m2 = false).
    { apply not_true_is_false. rewrite fires_spec. simpl.
      rewrite E2. intros [H|H]; [congruence | lra]. }
    assert (F3 : fires g1 t3 m3 = false).
    { apply not_true_is_false. rewrite fires_spec. simpl.
      rewrite E3. intros [H|H]; [congruence | lra]. }
    cbn [handle_all]. rewrite (handle_fires _ _ _ F1). fold g1.
    rewrite (handle_silent _ _ _ F2), (handle_silent _ _ _ F3).
    reflexivity.
Qed.

Lemma cooldown_gate_fires_once_per_held_gesture_witness :
  triggers (snd (handle_all gate_init
                   [(100, {| id := "fist_default"; entry := fist |});
                    (101, {| id := "fist_default"; entry := fist |});
                    (104, {| id := "fist_default"; entry := fist |})]))
  = 1%nat.
Proof.
  apply (cooldown_gate_fires_once_per_held_gesture gate_init 100
           {| id := "fist_default"; entry := fist |});
    simpl; try reflexivity; try discriminate; lra.
Defined.

End CooldownGate.

(** * Adding a gesture *)

Section AddGesture.

(** Every call of [_save_gestures] prints one line, last. *)
Lemma save_prints (f : fault) (w : world) (data : document) :
  exists p, stdout (snd (_save_gestures f w data)) = stdout w ++ [p] /\
            p <> EmptyLandmarksError.
Proof.
  unfold _save_gestures, save_failed.
  destruct f; simpl; try destruct (db_file (disk w)); simpl;
    eexists; (split; [reflexivity | discriminate]).
Qed.

(** With landmarks, the entry is stored in memory and a save is tried. *)
Lemma add_gesture_nonempty (f : fault) (now : Z) (w : world)
    (gesture_id name message : string) (x : R) (landmarks : list R) :
  add_gesture f now w gesture_id name (x :: landmarks) message
  = add_gesture_overwritten f now w gesture_id name (x :: landmarks) message.
Proof. reflexivity. Qed.

(** C10.  [add_gesture] with an empty landmark list returns [False];
    the mapping in memory and both files are what they were, and the
    only line printed is the error message, none of [_save_gestures]. *)
Theorem add_gesture_rejects_empty_landmarks
    (f : fault) (now : Z) (w : world) (gesture_id name message : string) :
  exists w',
    add_gesture f now w gesture_id name [] message = (false, w') /\
    gestures w' = gestures w /\
    disk w' = disk w /\
    stdout w' = stdout w ++ [EmptyLandmarksError].
Proof. exists (print w EmptyLandmarksError). repeat split. Qed.

End AddGesture.


(** * Further properties of the code *)

(** ** Normalization: when it returns and when it raises *)

Section NormalizationOutcome.

Lemma list_ind3 (P : list R -> Prop) :
  P [] -> (forall x, P [x]) -> (forall x y, P [x; y]) ->
  (forall x y z l, P l -> P (x :: y :: z :: l)) ->
  forall l, P l.
Proof.
  intros H0 H1 H2 H3. fix IH 1.
  intros [|x [|y [|z l]]]; [exact H0 | apply H1 | apply H2 | apply H3, IH].
Qed.

(** [reshape] succeeds exactly on sizes that are multiples of three, and
    fails with ValueError only. *)
Lemma reshape3_outcome (l : list R) :
  match reshape3 l with
  | Ok rows => length l = (3 * length rows)%nat /\ flatten rows = l
  | Raise e => e = ValueError /\ (length l mod 3 <> 0)%nat
  end.
Proof.
  induction l as [| x | x y | x y z l IH] using list_ind3.
  - split; reflexivity.
  - split; [reflexivity | discriminate].
  - split; [reflexivity | discriminate].
  - cbn [reshape3]. destruct (reshape3 l) as [rows|e]; cbn [Py.bind].
    + destruct IH as [Hlen Hflat]. cbn [flatten length].
      rewrite Hflat. split; [lia | reflexivity].
    + destruct IH as [He Hmod]. split; [exact He|].
      cbn [length].
      replace (S (S (S (length l)))) with (length l + 1 * 3)%nat by lia.
      now rewrite Nat.Div0.mod_add.
Qed.

Lemma row_out_of_range (rows : list point) (i : nat) :
  (length rows <= i)%nat -> row rows i = Raise IndexError.
Proof.
  intros Hi. unfold row.
  now rewrite (proj2 (nth_error_None rows i) Hi).
Qed.

Lemma normalize_landmarks_cases (l : list R) :
  match _normalize_landmarks l with
  | Ok out =>
      (length l mod 3 = 0)%nat /\ (30 <= length l)%nat /\
      length out = length l
  | Raise ValueError => (length l mod 3 <> 0)%nat
  | Raise IndexError => (length l mod 3 = 0)%nat /\ (length l < 30)%nat
  | Raise QueueEmpty => False
  end.
Proof.
  unfold _normalize_landmarks.
  pose proof (reshape3_outcome l) as H.
  destruct (reshape3 l) as [rows|e]; cbn [Py.bind].
  - destruct H as [Hlen _].
    assert (Hmod : (length l mod 3 = 0)%nat)
      by (rewrite Hlen, Nat.mul_comm; apply Nat.Div0.mod_mul).
    destruct (Nat.lt_ge_cases 9 (length rows)) as [Hmany|Hfew].
    + rewrite row_nth by lia. cbn [Py.bind].
      rewrite row_nth by (unfold sub_row; rewrite length_map; lia).
      cbn [Py.bind].
      split; [exact Hmod|]. split; [lia|].
      rewrite flatten_length.
      destruct (Rgt_dec _ _); unfold div_scalar, sub_row;
        rewrite ?length_map; lia.
    + destruct (Nat.eq_dec (length rows) 0) as [Hnone|Hsome].
      * rewrite row_out_of_range by lia. cbn [Py.bind].
        split; [exact Hmod | lia].
      * rewrite row_nth by lia. cbn [Py.bind].
        rewrite row_out_of_range
          by (unfold sub_row; rewrite length_map; lia).
        cbn [Py.bind]. split; [exact Hmod | lia].
  - destruct H as [-> Hmod]. exact Hmod.
Qed.

(** X1.  [_normalize_landmarks] returns exactly when the list holds a
    whole number of points, at least ten, and then returns as many
    scalars as it was given; a size that is not a multiple of three
    raises ValueError, fewer than ten points raise IndexError. *)
Theorem normalize_landmarks_outcome (l : list R) :
  match _normalize_landmarks l with
  | Ok out =>
      (length l mod 3 = 0)%nat /\ (30 <= length l)%nat /\
      length out = length l
  | Raise ValueError => (length l mod 3 <> 0)%nat
  | Raise IndexError => (length l mod 3 = 0)%nat /\ (length l < 30)%nat
  | Raise QueueEmpty => False
  end.
Proof. exact (normalize_landmarks_cases l). Qed.

End NormalizationOutcome.


(** ** The comparison with one entry: when it succeeds *)

Section ComparisonOutcome.

Lemma top_k_bounds (n : nat) : (1 <= n)%nat -> (1 <= top_k n <= n)%nat.
Proof.
  intros Hn. unfold top_k, int.
  assert (Hx : 0 <= INR n * (8 / 10))
    by (pose proof (pos_INR n); nra).
  destruct (Rle_dec 0 (INR n * (8 / 10))) as [_|H]; [|contradiction].
  destruct (base_Int_part (INR n * (8 / 10))) as [Hle _].
  assert (Hz : (Int_part (INR n * (8 / 10)) <= Z.of_nat n)%Z).
  { apply le_IZR. rewrite <- INR_IZR_INZ. pose proof (pos_INR n). nra. }
  lia.
Qed.

Lemma zip_sub_length (a b : list R) :
  length a = length b -> length (zip_sub a b) = length a.
Proof.
  revert b. induction a as [|x a IH]; intros [|y b] H; simpl in *;
    try reflexivity; try discriminate.
  f_equal. apply IH. lia.
Qed.

Lemma sub1d_same_size (a b : list R) :
  length a = length b -> sub1d a b = Ok (zip_sub a b).
Proof. intros H. unfold sub1d. now rewrite H, Nat.eqb_refl. Qed.

(** Two arrays of different sizes, none of size 1, cannot be subtracted. *)
Lemma sub1d_other_size (a b : list R) :
  length a <> length b -> (2 <= length a)%nat -> (2 <= length b)%nat ->
  sub1d a b = Raise ValueError.
Proof.
  intros Hne Ha Hb. unfold sub1d.
  apply Nat.eqb_neq in Hne. rewrite Hne.
  destruct a as [|x [|x' a]]; simpl in Ha; try lia.
  destruct b as [|y [|y' b]]; simpl in Hb; try lia.
  reflexivity.
Qed.

Lemma similarity_to_same_size (nq stored : list R) :
  (length nq mod 3 = 0)%nat -> (30 <= length nq)%nat ->
  length stored = length nq ->
  exists s, similarity_to nq stored = Ok s.
Proof.
  intros Hmod Hlen Hsame. unfold similarity_to.
  pose proof (normalize_landmarks_cases stored) as Hs.
  destruct (_normalize_landmarks stored) as [ns|[| |]]; cbn [Py.bind].
  - destruct Hs as (_ & _ & Hns).
    rewrite sub1d_same_size by congruence. cbn [Py.bind].
    pose proof (reshape3_outcome (zip_sub nq ns)) as Hr.
    rewrite zip_sub_length in Hr by congruence.
    destruct (reshape3 (zip_sub nq ns)) as [rows|e]; cbn [Py.bind].
    + destruct Hr as [Hrows _].
      assert (Hd : length (norm_axis1 rows) = length rows)
        by (unfold norm_axis1; apply length_map).
      pose proof (top_k_bounds (length rows) ltac:(lia)) as Hk.
      unfold partition. rewrite Hd.
      destruct (Nat.ltb_spec (top_k (length rows) - 1) (length rows));
        [|lia].
      cbn [Py.bind]. eexists. reflexivity.
    + destruct Hr as [_ Hr]. contradiction.
  - rewrite Hsame in Hs. contradiction.
  - destruct Hs as [_ Hs]. lia.
  - contradiction.
Qed.

Lemma similarity_to_other_size (nq stored ns : list R) :
  (30 <= length nq)%nat ->
  _normalize_landmarks stored = Ok ns -> length stored <> length nq ->
  similarity_to nq stored = Raise ValueError.
Proof.
  intros Hlen Hns Hne. unfold similarity_to. rewrite Hns. cbn [Py.bind].
  pose proof (normalize_landmarks_cases stored) as Hs. rewrite Hns in Hs.
  destruct Hs as (_ & Hs & Hsame).
  rewrite sub1d_other_size by lia. reflexivity.
Qed.

(** X4.  Against a normalized query (a whole number of points, at least
    ten) the comparison with a stored array succeeds exactly when the
    stored array has the size of the query, with a similarity in (0,1];
    a stored array of another size raises ValueError, or IndexError when
    it holds fewer than ten whole points. *)
Theorem similarity_to_outcome (nq stored : list R) :
  (length nq mod 3 = 0)%nat -> (30 <= length nq)%nat ->
  match similarity_to nq stored with
  | Ok s => length stored = length nq /\ 0 < s <= 1
  | Raise ValueError =>
      length stored <> length nq /\
      ((length stored mod 3 <> 0)%nat \/ (30 <= length stored)%nat)
  | Raise IndexError =>
      (length stored mod 3 = 0)%nat /\ (length stored < 30)%nat
  | Raise QueueEmpty => False
  end.
Proof.
  intros Hmod Hlen.
  destruct (Nat.eq_dec (length stored) (length nq)) as [Hsame|Hne].
  - destruct (similarity_to_same_size nq stored Hmod Hlen Hsame) as [s Hs].
    rewrite Hs. split; [exact Hsame|]. eapply similarity_to_range, Hs.
  - pose proof (normalize_landmarks_cases stored) as Hs.
    destruct (_normalize_landmarks stored) as [ns|e] eqn:E.
    + rewrite (similarity_to_other_size nq stored ns Hlen E Hne).
      split; [exact Hne|]. right. tauto.
    + unfold similarity_to. rewrite E. cbn [Py.bind].
      destruct e; [split; [exact Hne | now left] | exact Hs | exact Hs].
Qed.

Lemma similarity_to_outcome_witness :
  match similarity_to (flatten (normalize_rows (rows_of fist_landmarks)))
                      palm_landmarks with
  | Ok s =>
      length palm_landmarks
      = length (flatten (normalize_rows (rows_of fist_landmarks))) /\
      0 < s <= 1
  | Raise ValueError =>
      length palm_landmarks
      <> length (flatten (normalize_rows (rows_of fist_landmarks))) /\
      ((length palm_landmarks mod 3 <> 0)%nat \/
       (30 <= length palm_landmarks)%nat)
  | Raise IndexError =>
      (length palm_landmarks mod 3 = 0)%nat /\
      (length palm_landmarks < 30)%nat
  | Raise QueueEmpty => False
  end.
Proof.
  apply (similarity_to_outcome
           (flatten (normalize_rows (rows_of fist_landmarks)))
           palm_landmarks);
    rewrite flatten_length, normalize_rows_length; simpl; [reflexivity | lia].
Defined.

Lemma joint_distance_sym (a b : list R) (i : nat) :
  Spec.joint_distance a b i = Spec.joint_distance b a i.
Proof.
  unfold Spec.joint_distance.
  destruct (Spec.point_at a i) as [[x y] z].
  destruct (Spec.point_at b i) as [[u v] w].
  f_equal. ring.
Qed.

(** X5.  The similarity is symmetric: for two 21-point arrays, comparing
    the normalized first with the second gives what comparing the
    normalized second with the first gives. *)
Theorem similarity_is_symmetric (a b : list R) :
  length a = 63%nat -> length b = 63%nat ->
  exists na nb,
    _normalize_landmarks a = Ok na /\
    _normalize_landmarks b = Ok nb /\
    similarity_to na b = similarity_to nb a.
Proof.
  intros Ha Hb.
  destruct (normalize_landmarks_total 21 a) as (ra & Hfa & Hra & Hna);
    [lia | exact Ha |].
  destruct (normalize_landmarks_total 21 b) as (rb & Hfb & Hrb & Hnb);
    [lia | exact Hb |].
  exists (flatten (normalize_rows ra)), (flatten (normalize_rows rb)).
  split; [exact Hna|]. split; [exact Hnb|].
  rewrite <- Hfa, <- Hfb.
  rewrite !similarity_to_rows by (try rewrite normalize_rows_length; lia).
  replace (Spec.joint_distances (flatten (normalize_rows rb))
                                (flatten (normalize_rows ra)))
    with (Spec.joint_distances (flatten (normalize_rows ra))
                               (flatten (normalize_rows rb)));
    [reflexivity|].
  unfold Spec.joint_distances.
  apply map_ext. intros i. apply joint_distance_sym.
Qed.

Lemma similarity_is_symmetric_witness :
  length fist_landmarks = 63%nat /\ length palm_landmarks = 63%nat /\
  exists na nb,
    _normalize_landmarks fist_landmarks = Ok na /\
    _normalize_landmarks palm_landmarks = Ok nb /\
    similarity_to na palm_landmarks = similarity_to nb fist_landmarks.
Proof.
  split; [reflexivity|]. split; [reflexivity|].
  apply (similarity_is_symmetric fist_landmarks palm_landmarks); reflexivity.
Defined.

End ComparisonOutcome.

(** ** The matcher: what it returns, and when it returns nothing *)

Section MatcherResult.

(** How the loop ends: with nothing, no entry of the library having a
    score, or with an entry of the library and its score, the highest of
    all. *)
Lemma scan_outcome (nq : list R) (lib : library) :
  (scan nq lib = search_init /\
   forall gid g, In (gid, g) lib -> score nq g = None) \/
  (exists gid g s,
     In (gid, g) lib /\ score nq g = Some s /\
     scan nq lib = leader gid g s /\
     forall gid' g' s', In (gid', g') lib -> score nq g' = Some s' ->
                        s' <= s).
Proof.
  induction lib as [|[gid g] lib IH] using rev_ind.
  - left. split; [reflexivity | intros ? ? []].
  - rewrite scan_app. cbn [fold_left]. rewrite visit_score.
    destruct IH as [[Hinit Hnone] | (gid0 & g0 & s0 & Hin & Hs0 & Hscan & Hmax)].
    + rewrite Hinit.
      destruct (score nq g) as [s|] eqn:E.
      * right. exists gid, g, s.
        pose proof (score_range nq g s E) as Hs.
        cbn [best_score search_init].
        destruct (Rgt_dec s (-1)) as [_|Hn]; [|unfold Rgt in Hn; lra].
        split; [apply in_or_app; right; now left|].
        split; [exact E|]. split; [reflexivity|].
        intros gid' g' s' Hin' Hs'. apply in_app_or in Hin'.
        destruct Hin' as [Hin'|[Heq|[]]].
        -- rewrite (Hnone gid' g' Hin') in Hs'. discriminate.
        -- inversion Heq; subst. rewrite E in Hs'. inversion Hs'. lra.
      * left. split; [reflexivity|].
        intros gid' g' Hin'. apply in_app_or in Hin'.
        destruct Hin' as [Hin'|[Heq|[]]]; [now apply (Hnone gid')|].
        now inversion Heq; subst.
    + rewrite Hscan. cbn [best_score leader].
      destruct (score nq g) as [s|] eqn:E.
      * destruct (Rgt_dec s s0) as [Hgt|Hle].
        -- right. exists gid, g, s.
           split; [apply in_or_app; right; now left|].
           split; [exact E|]. split; [reflexivity|].
           intros gid' g' s' Hin' Hs'. apply in_app_or in Hin'.
           destruct Hin' as [Hin'|[Heq|[]]].
           ++ specialize (Hmax gid' g' s' Hin' Hs'). unfold Rgt in Hgt. lra.
           ++ inversion Heq; subst. rewrite E in Hs'. inversion Hs'. lra.
        -- right. exists gid0, g0, s0.
           split; [apply in_or_app; now left|].
           split; [exact Hs0|]. split; [reflexivity|].
           intros gid' g' s' Hin' Hs'. apply in_app_or in Hin'.
           destruct Hin' as [Hin'|[Heq|[]]]; [now apply (Hmax gid' g')|].
           inversion Heq; subst. rewrite E in Hs'. inversion Hs'.
           unfold Rgt in Hle. lra.
      * right. exists gid0, g0, s0.
        split; [apply in_or_app; now left|].
        split; [exact Hs0|]. split; [reflexivity|].
        intros gid' g' s' Hin' Hs'. apply in_app_or in Hin'.
        destruct Hin' as [Hin'|[Heq|[]]]; [now apply (Hmax gid' g')|].
        inversion Heq; subst. rewrite E in Hs'. discriminate.
Qed.

Lemma find_similar_gesture_none_or (lib : library) (q : list R)
    (threshold : R) :
  find_similar_gesture lib q threshold = None \/
  exists nq, q <> [] /\ lib <> [] /\ _normalize_landmarks q = Ok nq /\
    best_score (scan nq lib) >= threshold /\
    find_similar_gesture lib q threshold = best_match (scan nq lib).
Proof.
  destruct q as [|x q]; [now left|].
  destruct lib as [|item lib]; [now left|].
  rewrite find_similar_gesture_eq by discriminate.
  destruct (_normalize_landmarks (x :: q)) as [nq|e]; [|now left].
  destruct (Rge_dec _ _) as [Hge|_]; [|now left].
  right. exists nq. repeat split; try discriminate; auto.
Qed.

Lemma find_similar_gesture_sound
    (lib : library) (q : list R) (threshold : R) (m : matched) :
  find_similar_gesture lib q threshold = Some m ->
  In (id m, entry m) lib /\
  exists nq stored s,
    _normalize_landmarks q = Ok nq /\
    landmarks (entry m) = Some stored /\ stored <> [] /\
    similarity_to nq stored = Ok s /\
    threshold <= s /\
    forall gid g stored' s',
      In (gid, g) lib -> landmarks g = Some stored' ->
      similarity_to nq stored' = Ok s' -> s' <= s.
Proof.
  intros Hfind.
  destruct (find_similar_gesture_none_or lib q threshold)
    as [Hnone | (nq & _ & _ & Hnq & Hge & Heq)]; [congruence|].
  rewrite Heq in Hfind.
  destruct (scan_outcome nq lib)
    as [[Hinit _] | (gid & g & s & Hin & Hs & Hscan & Hmax)].
  - rewrite Hinit in Hfind. discriminate.
  - rewrite Hscan in Hfind, Hge. cbn in Hfind, Hge.
    injection Hfind as <-. cbn [id entry].
    split; [exact Hin|].
    unfold score in Hs.
    destruct (landmarks g) as [[|x stored]|] eqn:El; try discriminate.
    destruct (similarity_to nq (x :: stored)) as [s0|] eqn:Es;
      [|discriminate].
    injection Hs as ->.
    exists nq, (x :: stored), s. repeat split; auto; try discriminate; try lra.
    intros gid' g' stored' s' Hin' Hl' Hs'.
    apply (Hmax gid' g'); [exact Hin'|].
    unfold score. rewrite Hl'.
    destruct stored' as [|y stored']; [|now rewrite Hs'].
    (* an empty stored array cannot be compared *)
    exfalso. unfold similarity_to, _normalize_landmarks in Hs'.
    simpl in Hs'. discriminate.
Qed.

(** X6.  Whatever the matcher returns is an entry of the library, under
    its own identifier, with a landmark array that is not empty and a
    similarity to the query that is at least the threshold and at least
    the similarity of every other entry. *)
Theorem returned_match_is_the_best_entry
    (lib : library) (q : list R) (threshold : R) (m : matched) :
  find_similar_gesture lib q threshold = Some m ->
  In (id m, entry m) lib /\
  exists nq stored s,
    _normalize_landmarks q = Ok nq /\
    landmarks (entry m) = Some stored /\ stored <> [] /\
    similarity_to nq stored = Ok s /\
    threshold <= s /\
    forall gid g stored' s',
      In (gid, g) lib -> landmarks g = Some stored' ->
      similarity_to nq stored' = Ok s' -> s' <= s.
Proof. exact (find_similar_gesture_sound lib q threshold m). Qed.

Lemma returned_match_is_the_best_entry_witness :
  In ("fist_default"%string, fist) [("fist_default"%string, fist)] /\
  exists nq stored s,
    _normalize_landmarks fist_landmarks = Ok nq /\
    landmarks fist = Some stored /\ stored <> [] /\
    similarity_to nq stored = Ok s /\
    Config.GESTURE_RECOGNITION_THRESHOLD <= s /\
    forall gid g stored' s',
      In (gid, g) [("fist_default"%string, fist)] ->
      landmarks g = Some stored' ->
      similarity_to nq stored' = Ok s' -> s' <= s.
Proof.
  apply (returned_match_is_the_best_entry
           [("fist_default"%string, fist)] fist_landmarks
           Config.GESTURE_RECOGNITION_THRESHOLD
           {| id := "fist_default"; entry := fist |}).
  rewrite find_similar_gesture_eq by discriminate.
  rewrite fist_normalized, fist_alone_scan. cbn.
  destruct (Rge_dec 1 Config.GESTURE_RECOGNITION_THRESHOLD) as [_|H];
    [reflexivity|].
  unfold Config.GESTURE_RECOGNITION_THRESHOLD in H. lra.
Defined.





End MatcherResult.

(** ** The matcher on the entries of the database file *)

Section LoadedLibrary.

Lemma typed_load (g : gesture) : typed (load g) = g.
Proof. destruct g as [n [l|] m c d]; reflexivity. Qed.

Lemma typed_library_load (lib : library) :
  typed_library (map (fun item => (fst item, load (snd item))) lib) = lib.
Proof.
  induction lib as [|[gid g] lib IH]; [reflexivity|].
  cbn [map typed_library fst snd]. rewrite typed_load. f_equal. exact IH.
Qed.

Lemma typed_library_app (l1 l2 : list (string * loaded)) :
  typed_library (l1 ++ l2) = typed_library l1 ++ typed_library l2.
Proof. apply map_app. Qed.

(** On an entry that [len] accepts, a pass of the loop is the pass on
    the entry with its landmarks as numbers. *)
Lemma visit_loaded_sized (nq : list R) (st : search) (gid : string)
    (g : loaded) :
  sized (gid, g) = true ->
  visit_loaded nq st (gid, g) = Some (visit nq st (gid, typed g)).
Proof.
  unfold sized, visit_loaded, visit, typed. cbn [snd landmarks].
  destruct (l_landmarks g) as [|[|x stored]| |]; try reflexivity;
    [|discriminate].
  intros _. destruct (similarity_to nq (x :: stored)); [|reflexivity].
  now destruct (Rgt_dec _ _).
Qed.

Lemma scan_loaded_app (nq : list R) (l1 l2 : list (string * loaded)) :
  forall st,
  scan_loaded nq st (l1 ++ l2)
  = match scan_loaded nq st l1 with
    | Some st' => scan_loaded nq st' l2
    | None => None
    end.
Proof.
  induction l1 as [|item l1 IH]; intros st; [reflexivity|].
  cbn [app scan_loaded].
  destruct (visit_loaded nq st item); [apply IH | reflexivity].
Qed.

Lemma scan_loaded_sized (nq : list R) (lib : list (string * loaded)) :
  forall st,
  forallb sized lib = true ->
  scan_loaded nq st lib
  = Some (fold_left (visit nq) (typed_library lib) st).
Proof.
  induction lib as [|[gid g] lib IH]; intros st H; [reflexivity|].
  cbn [forallb] in H. apply andb_true_iff in H. destruct H as [Hg Hlib].
  cbn [scan_loaded typed_library map fold_left fst snd].
  rewrite (visit_loaded_sized nq st gid g Hg). now apply IH.
Qed.

(** The loop does not get past an entry that [len] refuses. *)
Lemma scan_loaded_unsized (nq : list R) (l1 l2 : list (string * loaded))
    (gid : string) (g : loaded) (st : search) :
  sized (gid, g) = false ->
  scan_loaded nq st (l1 ++ (gid, g) :: l2) = None.
Proof.
  intros H. rewrite scan_loaded_app.
  destruct (scan_loaded nq st l1) as [st'|]; [|reflexivity].
  cbn [scan_loaded]. unfold sized in H. cbn [snd] in H.
  unfold visit_loaded. now destruct (l_landmarks g).
Qed.

Lemma find_similar_gesture_loaded_eq (lib : list (string * loaded))
    (q nq : list R) (threshold : R) :
  q <> [] -> lib <> [] -> _normalize_landmarks q = Ok nq ->
  find_similar_gesture_loaded lib q threshold
  = match scan_loaded nq search_init lib with
    | Some st =>
        Returned (if Rge_dec (best_score st) threshold
                  then best_match st else None)
    | None => RaisedTypeError
    end.
Proof.
  intros Hq Hlib Hnq. unfold find_similar_gesture_loaded.
  destruct q; [contradiction|]. destruct lib; [contradiction|].
  now rewrite Hnq.
Qed.

(** Where [len] accepts every entry, the matcher on the loaded library
    is the matcher on the library with its landmarks as numbers. *)
Lemma find_similar_gesture_loaded_sized (lib : list (string * loaded))
    (q : list R) (threshold : R) :
  forallb sized lib = true ->
  find_similar_gesture_loaded lib q threshold
  = Returned (find_similar_gesture (typed_library lib) q threshold).
Proof.
  intros H. unfold find_similar_gesture_loaded, find_similar_gesture.
  destruct q as [|x q]; [reflexivity|].
  destruct lib as [|item lib]; [reflexivity|].
  cbn [typed_library map].
  destruct (_normalize_landmarks (x :: q)) as [nq|e]; [|reflexivity].
  rewrite (scan_loaded_sized nq (item :: lib) search_init H).
  reflexivity.
Qed.

Lemma fails_to_compare_score (nq : list R) (g : loaded) :
  fails_to_compare nq g -> score nq (typed g) = None.
Proof.
  unfold fails_to_compare, score, typed. cbn [landmarks].
  destruct (l_landmarks g) as [|stored| |]; try reflexivity.
  intros [-> | (e & He)]; [reflexivity|].
  destruct stored; [reflexivity|]. now rewrite He.
Qed.

(** C8.  An entry whose landmarks are missing or empty, or whose
    comparison with the query raises inside the [try], is skipped: the
    matcher returns what it returns on the library without that entry,
    and when [len] accepts the landmarks of every other entry and one of
    them reaches the threshold, a match is returned, an entry of the
    rest whose similarity is at least as high.  An entry whose landmarks
    are a non-zero number or [true] is not skipped: [len] raises
    TypeError at line 533, before the [try] of line 536, and the call
    ends with that exception, whatever the other entries are. *)
Theorem unsized_landmarks_abort_the_search
    (lib1 lib2 : list (string * loaded)) (gid : string) (g : loaded)
    (q nq : list R) (threshold : R) :
  q <> [] ->
  _normalize_landmarks q = Ok nq ->
  (sized (gid, g) = true -> fails_to_compare nq g ->
     find_similar_gesture_loaded (lib1 ++ (gid, g) :: lib2) q threshold
     = find_similar_gesture_loaded (lib1 ++ lib2) q threshold /\
     (forallb sized (lib1 ++ lib2) = true ->
      forall k h s,
        In (k, h) (typed_library (lib1 ++ lib2)) ->
        score nq h = Some s -> threshold <= s ->
        exists m s',
          find_similar_gesture_loaded (lib1 ++ (gid, g) :: lib2) q threshold
          = Returned (Some m) /\
          In (id m, entry m) (typed_library (lib1 ++ lib2)) /\
          score nq (entry m) = Some s' /\ s <= s')) /\
  (sized (gid, g) = false ->
     find_similar_gesture_loaded (lib1 ++ (gid, g) :: lib2) q threshold
     = RaisedTypeError).
Proof.
  intros Hq Hnq.
  assert (Hlib : lib1 ++ (gid, g) :: lib2 <> [])
    by (intros E; symmetry in E; now apply app_cons_not_nil in E).
  rewrite (find_similar_gesture_loaded_eq _ q nq threshold Hq Hlib Hnq).
  split.
  - intros Hsized Hfails.
    assert (Hscan : forall st,
              scan_loaded nq st (lib1 ++ (gid, g) :: lib2)
              = scan_loaded nq st (lib1 ++ lib2)).
    { intros st. rewrite !scan_loaded_app.
      destruct (scan_loaded nq st lib1) as [st'|]; [|reflexivity].
      cbn [scan_loaded]. rewrite (visit_loaded_sized nq st' gid g Hsized).
      now rewrite visit_score, (fails_to_compare_score nq g Hfails). }
    rewrite Hscan.
    assert (Heq : match scan_loaded nq search_init (lib1 ++ lib2) with
                  | Some st =>
                      Returned (if Rge_dec (best_score st) threshold
                                then best_match st else None)
                  | None => RaisedTypeError
                  end
                  = find_similar_gesture_loaded (lib1 ++ lib2) q threshold).
    { destruct (lib1 ++ lib2) as [|item lib] eqn:E.
      - cbn [scan_loaded]. unfold find_similar_gesture_loaded.
        destruct q; [contradiction|]. cbn [search_init best_score best_match].
        now destruct (Rge_dec _ _).
      - symmetry. apply find_similar_gesture_loaded_eq;
          [exact Hq | discriminate | exact Hnq]. }
    split; [exact Heq|].
    intros Hall k h s Hin Hs Hth.
    rewrite (scan_loaded_sized nq _ search_init Hall).
    fold (scan nq (typed_library (lib1 ++ lib2))).
    destruct (scan_outcome nq (typed_library (lib1 ++ lib2)))
      as [[_ Hnone] | (gid0 & g0 & s0 & Hin0 & Hs0 & Hscan0 & Hmax)].
    + rewrite (Hnone k h Hin) in Hs. discriminate.
    + rewrite Hscan0. cbn [best_score best_match leader].
      specialize (Hmax k h s Hin Hs).
      destruct (Rge_dec s0 threshold) as [_|Hn]; [|lra].
      exists {| id := gid0; entry := g0 |}, s0. cbn [id entry]. auto.
  - intros Hunsized. now rewrite scan_loaded_unsized.
Qed.

Lemma fist_comes_first (rest : library) (threshold : R) :
  threshold <= 1 ->
  find_similar_gesture (("fist_default"%string, fist) :: rest)
    fist_landmarks threshold
  = Some {| id := "fist_default"; entry := fist |}.
Proof.
  intros Hth. rewrite find_similar_gesture_eq by discriminate.
  rewrite fist_normalized.
  change (("fist_default"%string, fist) :: rest)
    with ([] ++ ("fist_default"%string, fist) :: rest).
  rewrite (scan_first_best _ [] _ "fist_default" fist 1 fist_scores_one).
  - cbn [best_score best_match leader].
    destruct (Rge_dec 1 threshold) as [_|H]; [reflexivity | lra].
  - intros ? ? ? [].
  - intros gid g s _ Hs. apply score_range in Hs. lra.
Qed.

Lemma unsized_landmarks_abort_the_search_witness :
  let point_up :=
    default_gesture "Point Up" point_up_landmarks "I HAVE A DOUBT" in
  find_similar_gesture_loaded
    [("fist_default"%string, load fist);
     ("point_up_default"%string, load point_up);
     ("palm_default"%string, palm_with_number)]
    fist_landmarks default_threshold
  = RaisedTypeError /\
  find_similar_gesture_loaded
    [("fist_default"%string, load fist);
     ("dot"%string, load one_point);
     ("point_up_default"%string, load point_up)]
    fist_landmarks default_threshold
  = Returned (Some {| id := "fist_default"; entry := fist |}) /\
  find_similar_gesture_loaded
    [("fist_default"%string, load fist);
     ("point_up_default"%string, load point_up)]
    fist_landmarks default_threshold
  = Returned (Some {| id := "fist_default"; entry := fist |}).
Proof.
  intros point_up.
  assert (Hrest :
    find_similar_gesture_loaded
      [("fist_default"%string, load fist);
       ("point_up_default"%string, load point_up)]
      fist_landmarks default_threshold
    = Returned (Some {| id := "fist_default"; entry := fist |})).
  { rewrite find_similar_gesture_loaded_sized by reflexivity.
    cbn [typed_library map fst snd]. rewrite !typed_load.
    rewrite fist_comes_first; [reflexivity|].
    unfold default_threshold. lra. }
  split; [|split; [|exact Hrest]].
  - apply (proj2 (unsized_landmarks_abort_the_search
                    [("fist_default"%string, load fist);
                     ("point_up_default"%string, load point_up)]
                    [] "palm_default" palm_with_number fist_landmarks
                    (flatten (normalize_rows (rows_of fist_landmarks)))
                    default_threshold
                    ltac:(discriminate) fist_normalized)).
    reflexivity.
  - rewrite <- Hrest.
    apply (proj1 (unsized_landmarks_abort_the_search
                    [("fist_default"%string, load fist)]
                    [("point_up_default"%string, load point_up)]
                    "dot" (load one_point) fist_landmarks
                    (flatten (normalize_rows (rows_of fist_landmarks)))
                    default_threshold
                    ltac:(discriminate) fist_normalized)).
    + reflexivity.
    + right. exists IndexError. reflexivity.
Defined.

End LoadedLibrary.

(** ** The library: adding, looking up, deleting *)

Section Library.

Lemma dict_get_set_same (d : library) (k : string) (v : gesture) :
  dict_get (dict_set d k v) k = Some v.
Proof.
  induction d as [|[k' v'] d IH]; simpl.
  - now rewrite String.eqb_refl.
  - destruct (String.eqb k' k) eqn:E; simpl.
    + now rewrite String.eqb_refl.
    + now rewrite E.
Qed.

Lemma dict_get_set_other (d : library) (k k' : string) (v : gesture) :
  k' <> k -> dict_get (dict_set d k v) k' = dict_get d k'.
Proof.
  intros Hne. induction d as [|[k0 v0] d IH]; simpl.
  - apply String.eqb_neq in Hne. rewrite String.eqb_sym. now rewrite Hne.
  - destruct (String.eqb k0 k) eqn:E; simpl.
    + apply String.eqb_eq in E. subst k0.
      assert (H : String.eqb k k' = false)
        by (apply String.eqb_neq; congruence).
      now rewrite H.
    + destruct (String.eqb k0 k'); [reflexivity | exact IH].
Qed.

Lemma dict_mem_ids (d : library) (k : string) :
  dict_mem d k = true <-> In k (ids d).
Proof.
  unfold dict_mem, ids. induction d as [|[k' v] d IH]; simpl.
  - split; [discriminate | contradiction].
  - destruct (String.eqb k' k) eqn:E.
    + apply String.eqb_eq in E. split; auto.
    + apply String.eqb_neq in E. rewrite IH. split; [now right|].
      intros [H|H]; [contradiction | exact H].
Qed.

(** An update keeps the order of the keys; a new key goes last. *)
Lemma ids_dict_set (d : library) (k : string) (v : gesture) :
  ids (dict_set d k v) = if dict_mem d k then ids d else ids d ++ [k].
Proof.
  unfold dict_mem, ids. induction d as [|[k' v'] d IH]; simpl; [reflexivity|].
  destruct (String.eqb k' k) eqn:E; simpl.
  - apply String.eqb_eq in E. now subst.
  - rewrite IH. now destruct (dict_get d k).
Qed.

Lemma dict_set_nodup (d : library) (k : string) (v : gesture) :
  NoDup (ids d) -> NoDup (ids (dict_set d k v)).
Proof.
  intros Hd. rewrite ids_dict_set.
  destruct (dict_mem d k) eqn:E; [exact Hd|].
  apply NoDup_app; [exact Hd | repeat constructor; intros [] |].
  intros x Hx [<-|[]].
  apply dict_mem_ids in Hx. congruence.
Qed.

Lemma ids_dict_del (d : library) (k : string) :
  NoDup (ids d) ->
  ids (dict_del d k) = filter (fun x => negb (String.eqb x k)) (ids d).
Proof.
  unfold ids. induction d as [|[k' v] d IH]; simpl; intros Hd; [reflexivity|].
  inversion Hd as [|? ? Hnotin Hd']; subst.
  destruct (String.eqb k' k) eqn:E; simpl.
  - apply String.eqb_eq in E. subst k'.
    symmetry. apply forallb_filter_id.
    apply forallb_forall. intros x Hx. apply negb_true_iff, String.eqb_neq.
    intros ->. contradiction.
  - f_equal. now apply IH.
Qed.

Lemma dict_get_del_same (d : library) (k : string) :
  NoDup (ids d) -> dict_get (dict_del d k) k = None.
Proof.
  unfold ids. induction d as [|[k' v] d IH]; simpl; intros Hd; [reflexivity|].
  inversion Hd as [|? ? Hnotin Hd']; subst.
  destruct (String.eqb k' k) eqn:E; simpl.
  - apply String.eqb_eq in E. subst k'.
    destruct (dict_get d k) eqn:G; [|reflexivity].
    exfalso. apply Hnotin. apply (dict_mem_ids d k).
    unfold dict_mem. now rewrite G.
  - rewrite E. now apply IH.
Qed.

Lemma dict_get_del_other (d : library) (k k' : string) :
  k' <> k -> dict_get (dict_del d k) k' = dict_get d k'.
Proof.
  intros Hne. induction d as [|[k0 v0] d IH]; simpl; [reflexivity|].
  destruct (String.eqb k0 k) eqn:E; simpl.
  - apply String.eqb_eq in E. subst k0.
    assert (H : String.eqb k k' = false)
      by (apply String.eqb_neq; congruence).
    now rewrite H.
  - destruct (String.eqb k0 k'); [reflexivity | exact IH].
Qed.

(** [_save_gestures] does not touch the mapping in memory. *)
Lemma save_keeps_memory (f : fault) (w : world) (data : document) :
  gestures (snd (_save_gestures f w data)) = gestures w.
Proof.
  unfold _save_gestures, save_failed.
  destruct f; simpl; try destruct (db_file (disk w)); reflexivity.
Qed.

(** What [_save_gestures] leaves on disk: on success the new document
    and no temporary file; on failure the old database file or none at
    all, never a new one, and no temporary file unless its removal
    failed as well. *)
Lemma save_disk (f : fault) (w : world) (data : document) :
  (fst (_save_gestures f w data) = true ->
     db_file (disk (snd (_save_gestures f w data))) = Some data /\
     tmp_file (disk (snd (_save_gestures f w data))) = None) /\
  (fst (_save_gestures f w data) = false ->
     db_file (disk (snd (_save_gestures f w data))) = db_file (disk w) \/
     db_file (disk (snd (_save_gestures f w data))) = None) /\
  (removal_fails f = false ->
     tmp_file (disk (snd (_save_gestures f w data))) = None) /\
  (fst (_save_gestures f w data) = false -> removal_fails f = true ->
     tmp_file (disk (snd (_save_gestures f w data))) = tmp_file (disk w) \/
     tmp_file (disk (snd (_save_gestures f w data))) = Some data) /\
  (f = NoFault -> fst (_save_gestures f w data) = true) /\
  (f = DumpFails \/ f = OpenFailsTmpStays \/ f = DumpFailsTmpStays ->
     fst (_save_gestures f w data) = false /\
     db_file (disk (snd (_save_gestures f w data))) = db_file (disk w)) /\
  (f = RenameFailsTmpStays ->
     fst (_save_gestures f w data) = false /\
     db_file (disk (snd (_save_gestures f w data))) = None /\
     tmp_file (disk (snd (_save_gestures f w data))) = Some data).
Proof.
  unfold _save_gestures, save_failed.
  destruct f; simpl; try destruct (db_file (disk w)); simpl;
    repeat split; intros; try discriminate; auto;
    repeat match goal with
           | H : _ \/ _ |- _ => destruct H
           end; try discriminate; auto.
Qed.

(** X10.  After [add_gesture] with landmarks, [get_gesture] returns the
    new record under the given identifier, whether the save succeeded or
    not; every other identifier maps to what it mapped to before; an
    identifier that was present keeps its place in the iteration order
    and a new one goes last. *)
Theorem added_gesture_is_found
    (f : fault) (now : Z) (w : world)
    (gesture_id name message : string) (landmarks : list R) :
  landmarks <> [] ->
  let w' := snd (add_gesture f now w gesture_id name landmarks message) in
  get_gesture w' gesture_id
  = Some {| GestureDatabase.name := name;
            GestureDatabase.landmarks := Some landmarks;
            GestureDatabase.message := message;
            created_at := now; is_default := false |} /\
  (forall k, k <> gesture_id -> get_gesture w' k = get_gesture w k) /\
  ids (get_all_gestures w')
  = if dict_mem (gestures w) gesture_id
    then ids (gestures w) else ids (gestures w) ++ [gesture_id].
Proof.
  intros Hne. destruct landmarks as [|x landmarks]; [contradiction|].
  cbv zeta. unfold add_gesture, get_gesture, get_all_gestures.
  rewrite save_keeps_memory. unfold store. cbn [gestures].
  split; [apply dict_get_set_same|]. split.
  - intros k Hk. now apply dict_get_set_other.
  - apply ids_dict_set.
Qed.

Lemma added_gesture_is_found_witness :
  let w := {| gestures := _get_default_gestures;
              disk := {| db_file := None; tmp_file := None |};
              stdout := [] |} in
  let w' := snd (add_gesture RenameFails 1700000000 w "wave_1700000000"
                   "Wave" palm_landmarks "HELLO") in
  get_gesture w' "wave_1700000000"
  = Some {| GestureDatabase.name := "Wave";
            GestureDatabase.landmarks := Some palm_landmarks;
            GestureDatabase.message := "HELLO";
            created_at := 1700000000; is_default := false |} /\
  (forall k, k <> "wave_1700000000"%string ->
             get_gesture w' k = get_gesture w k) /\
  ids (get_all_gestures w')
  = if dict_mem (gestures w) "wave_1700000000"
    then ids (gestures w) else ids (gestures w) ++ ["wave_1700000000"%string].
Proof.
  apply (added_gesture_is_found RenameFails 1700000000
           {| gestures := _get_default_gestures;
              disk := {| db_file := None; tmp_file := None |};
              stdout := [] |}
           "wave_1700000000" "Wave" "HELLO" palm_landmarks).
  discriminate.
Defined.

(** X11.  [add_gesture] with landmarks returns [True] only when the
    database file holds exactly the mapping in memory and no temporary
    file is left; when it returns [False] the gesture is in memory all
    the same, and the database file is the old one or is gone, never a
    new one.  After a failure the temporary file is gone when the code
    could remove it; when that removal fails too (lines 419-423 ignore
    it) the temporary file is the one that was there before or the one
    just written.  A failing write of the temporary file leaves the
    database file as it was; a failing rename whose cleanup fails leaves
    no database file and the new document in the temporary file. *)
Theorem add_gesture_and_the_disk
    (f : fault) (now : Z) (w : world)
    (gesture_id name message : string) (landmarks : list R) :
  landmarks <> [] ->
  let ok := fst (add_gesture f now w gesture_id name landmarks message) in
  let w' := snd (add_gesture f now w gesture_id name landmarks message) in
  let data := {| version := 1; doc_gestures := gestures w' |} in
  (ok = true ->
     db_file (disk w') = Some data /\ tmp_file (disk w') = None) /\
  (ok = false ->
     get_gesture w' gesture_id <> None /\
     (db_file (disk w') = db_file (disk w) \/ db_file (disk w') = None)) /\
  (removal_fails f = false -> tmp_file (disk w') = None) /\
  (ok = false -> removal_fails f = true ->
     tmp_file (disk w') = tmp_file (disk w) \/
     tmp_file (disk w') = Some data) /\
  (f = NoFault -> ok = true) /\
  (f = DumpFails \/ f = OpenFailsTmpStays \/ f = DumpFailsTmpStays ->
     ok = false /\ db_file (disk w') = db_file (disk w)) /\
  (f = RenameFailsTmpStays ->
     ok = false /\ db_file (disk w') = None /\
     tmp_file (disk w') = Some data).
Proof.
  intros Hne. destruct landmarks as [|x landmarks]; [contradiction|].
  cbv zeta. unfold add_gesture.
  set (w1 := store w gesture_id name (x :: landmarks) message now).
  rewrite save_keeps_memory.
  set (data := {| version := 1; doc_gestures := gestures w1 |}).
  destruct (save_disk f w1 data)
    as (Hok & Hfail & Htmp & Hstays & Hno & Hdump & Hrename).
  split; [exact Hok|]. split; [|split; [exact Htmp|split; [exact Hstays|]]].
  - intros H. split.
    + unfold get_gesture. rewrite save_keeps_memory. unfold w1, store.
      cbn [gestures]. rewrite dict_get_set_same. discriminate.
    + exact (Hfail H).
  - split; [exact Hno|]. split; [exact Hdump | exact Hrename].
Qed.

Lemma add_gesture_and_the_disk_witness :
  let w := {| gestures := _get_default_gestures;
              disk := {| db_file :=
                           Some {| version := 1;
                                   doc_gestures := _get_default_gestures |};
                         tmp_file := None |};
              stdout := [] |} in
  let f := RenameFailsTmpStays in
  let ok := fst (add_gesture f 1700000000 w "wave_1700000000"
                   "Wave" palm_landmarks "HELLO") in
  let w' := snd (add_gesture f 1700000000 w "wave_1700000000"
                   "Wave" palm_landmarks "HELLO") in
  let data := {| version := 1; doc_gestures := gestures w' |} in
  (ok = true ->
     db_file (disk w') = Some data /\ tmp_file (disk w') = None) /\
  (ok = false ->
     get_gesture w' "wave_1700000000" <> None /\
     (db_file (disk w') = db_file (disk w) \/ db_file (disk w') = None)) /\
  (removal_fails f = false -> tmp_file (disk w') = None) /\
  (ok = false -> removal_fails f = true ->
     tmp_file (disk w') = tmp_file (disk w) \/
     tmp_file (disk w') = Some data) /\
  (f = NoFault -> ok = true) /\
  (f = DumpFails \/ f = OpenFailsTmpStays \/ f = DumpFailsTmpStays ->
     ok = false /\ db_file (disk w') = db_file (disk w)) /\
  (f = RenameFailsTmpStays ->
     ok = false /\ db_file (disk w') = None /\
     tmp_file (disk w') = Some data).
Proof.
  apply (add_gesture_and_the_disk RenameFailsTmpStays 1700000000
           {| gestures := _get_default_gestures;
              disk := {| db_file :=
                           Some {| version := 1;
                                   doc_gestures := _get_default_gestures |};
                         tmp_file := None |};
              stdout := [] |}
           "wave_1700000000" "Wave" "HELLO" palm_landmarks).
  discriminate.
Defined.

(** X12.  [delete_gesture] of an identifier that is not in the mapping
    returns [False] and changes nothing, not even the standard output;
    of one that is, it removes the entry from memory whatever becomes of
    the save.  Either way the identifier is unknown afterwards, the other
    identifiers map to what they mapped to, in their order, and the keys
    stay distinct. *)
Theorem delete_gesture_removes_the_entry
    (f : fault) (w : world) (gesture_id : string) :
  NoDup (ids (gestures w)) ->
  let ok := fst (delete_gesture f w gesture_id) in
  let w' := snd (delete_gesture f w gesture_id) in
  get_gesture w' gesture_id = None /\
  (forall k, k <> gesture_id -> get_gesture w' k = get_gesture w k) /\
  ids (gestures w')
  = filter (fun x => negb (String.eqb x gesture_id)) (ids (gestures w)) /\
  NoDup (ids (gestures w')) /\
  (get_gesture w gesture_id = None -> ok = false /\ w' = w).
Proof.
  intros Hd. cbv zeta. unfold delete_gesture, get_gesture, dict_mem.
  destruct (dict_get (gestures w) gesture_id) as [g|] eqn:E.
  - rewrite save_keeps_memory. cbn [gestures].
    split; [now apply dict_get_del_same|]. split; [|split; [|split]].
    + intros k Hk. now apply dict_get_del_other.
    + now apply ids_dict_del.
    + rewrite ids_dict_del by exact Hd. now apply NoDup_filter.
    + discriminate.
  - cbn [fst snd]. split; [exact E|]. split; [reflexivity|].
    split; [|split; [exact Hd | auto]].
    symmetry. apply forallb_filter_id.
    apply forallb_forall. intros x Hx. apply negb_true_iff, String.eqb_neq.
    intros ->. apply (dict_mem_ids (gestures w) gesture_id) in Hx.
    unfold dict_mem in Hx. rewrite E in Hx. discriminate.
Qed.

Lemma default_ids_distinct : NoDup (ids _get_default_gestures).
Proof.
  unfold ids, _get_default_gestures. simpl.
  repeat constructor; simpl; intuition discriminate.
Qed.

Lemma delete_gesture_removes_the_entry_witness :
  let w := {| gestures := _get_default_gestures;
              disk := {| db_file := None; tmp_file := None |};
              stdout := [] |} in
  let ok := fst (delete_gesture NoFault w "point_up_default") in
  let w' := snd (delete_gesture NoFault w "point_up_default") in
  get_gesture w' "point_up_default" = None /\
  (forall k, k <> "point_up_default"%string ->
             get_gesture w' k = get_gesture w k) /\
  ids (gestures w')
  = filter (fun x => negb (String.eqb x "point_up_default"))
           (ids (gestures w)) /\
  NoDup (ids (gestures w')) /\
  (get_gesture w "point_up_default" = None -> ok = false /\ w' = w).
Proof.
  apply (delete_gesture_removes_the_entry NoFault
           {| gestures := _get_default_gestures;
              disk := {| db_file := None; tmp_file := None |};
              stdout := [] |}
           "point_up_default").
  exact default_ids_distinct.
Defined.

End Library.

(** ** The camera: the queue under any sequence of calls, the choice of
    a resolution, the error counter *)

Section Camera.

Import CameraOperator.

Variable frame : Type.

(** X13.  From a queue that holds at most one frame, any sequence of
    publishes and takes, in any order, runs to its end without a call
    that waits or raises; every take returns the frame published last
    since the previous take, or nothing when none was published; and the
    queue holds at most one frame at the end. *)
Theorem any_calls_return_and_deliver_the_latest
    (cs : list (call frame)) (q : queue frame) :
  (length q <= maxsize)%nat ->
  exists q',
    calls q cs = Some (q', latest (hd_error q) cs) /\
    (length q' <= maxsize)%nat.
Proof.
  unfold maxsize. revert q.
  induction cs as [|[f|] cs IH]; intros q Hq.
  - exists q. split; [reflexivity | exact Hq].
  - cbn [calls latest]. rewrite publish_returns.
    destruct (IH [f]) as (q' & Hcalls & Hq'); [simpl; lia|].
    exists q'. split; [exact Hcalls | exact Hq'].
  - cbn [calls latest].
    destruct q as [|f [|f' q]]; simpl in Hq; try lia.
    + cbn [get_frame empty negb].
      destruct (IH []) as (q' & Hcalls & Hq'); [simpl; lia|].
      exists q'. cbn [hd_error] in *. rewrite Hcalls. split; [reflexivity | exact Hq'].
    + cbn [get_frame empty negb get].
      destruct (IH []) as (q' & Hcalls & Hq'); [simpl; lia|].
      exists q'. cbn [hd_error] in *. rewrite Hcalls. split; [reflexivity | exact Hq'].
Qed.

End Camera.

Lemma any_calls_return_and_deliver_the_latest_witness :
  (length (@nil nat) <= CameraOperator.maxsize)%nat /\
  exists q',
    CameraOperator.calls []
      [CameraOperator.Take; CameraOperator.Publish 1%nat;
       CameraOperator.Publish 2%nat; CameraOperator.Take;
       CameraOperator.Take; CameraOperator.Publish 3%nat;
       CameraOperator.Take]
    = Some (q', [None; Some 2%nat; None; Some 3%nat]) /\
    (length q' <= CameraOperator.maxsize)%nat.
Proof.
  assert (H : (length (@nil nat) <= CameraOperator.maxsize)%nat)
    by (unfold CameraOperator.maxsize; simpl; lia).
  split; [exact H|].
  exact (any_calls_return_and_deliver_the_latest nat
           [CameraOperator.Take; CameraOperator.Publish 1%nat;
            CameraOperator.Publish 2%nat; CameraOperator.Take;
            CameraOperator.Take; CameraOperator.Publish 3%nat;
            CameraOperator.Take] [] H).
Defined.

Section Resolution.

Import CameraOperator.

Variable device : Type.
Variable cap_set : device -> prop -> Z -> device.
Variable cap_get : device -> prop -> Z.

(** The device reports a size back exactly when it supports it, whatever
    its state. *)
Variable supports : Z * Z -> bool.
Hypothesis reports_back :
  forall (cap : device) (width height : Z),
    let cap' :=
      cap_set (cap_set cap CAP_PROP_FRAME_WIDTH width)
              CAP_PROP_FRAME_HEIGHT height in
    Z.eqb (cap_get cap' CAP_PROP_FRAME_WIDTH) width
    && Z.eqb (cap_get cap' CAP_PROP_FRAME_HEIGHT) height
    = supports (width, height).

(** X14.  The loop over the resolutions stops at the first one of the
    list that the device supports, and the frame size is then that one;
    when the device supports none of them, no resolution is accepted. *)
Theorem first_supported_resolution_is_taken
    (resolutions : list (Z * Z)) (cap : device) :
  match find supports resolutions with
  | Some r =>
      exists cap',
        try_resolutions cap_set cap_get cap resolutions = (true, cap') /\
        frame_size cap_get cap' = r
  | None => fst (try_resolutions cap_set cap_get cap resolutions) = false
  end.
Proof.
  revert cap. induction resolutions as [|[width height] rest IH]; intros cap.
  - reflexivity.
  - cbn [find try_resolutions].
    pose proof (reports_back cap width height) as Hr. cbv zeta in Hr.
    rewrite Hr.
    destruct (supports (width, height)) eqn:E.
    + eexists. split; [reflexivity|].
      apply andb_prop in Hr. destruct Hr as [Hw Hh].
      apply Z.eqb_eq in Hw, Hh. unfold frame_size. now rewrite Hw, Hh.
    + apply IH.
Qed.

End Resolution.

Lemma webcam_reports_back (cap : Z * Z) (width height : Z) :
  let cap' :=
    webcam_set (webcam_set cap CameraOperator.CAP_PROP_FRAME_WIDTH width)
               CameraOperator.CAP_PROP_FRAME_HEIGHT height in
  Z.eqb (webcam_get cap' CameraOperator.CAP_PROP_FRAME_WIDTH) width
  && Z.eqb (webcam_get cap' CameraOperator.CAP_PROP_FRAME_HEIGHT) height
  = webcam_supports (width, height).
Proof.
  cbv zeta. unfold webcam_set, webcam_get. cbn [fst snd].
  destruct (webcam_supports (width, height)) eqn:E.
  - now rewrite !Z.eqb_refl.
  - unfold webcam_supports in E. cbn [fst snd] in E.
    destruct (Z.eqb_spec 800 width) as [<-|Hw]; [|reflexivity].
    destruct (Z.eqb_spec 600 height) as [<-|Hh]; [|reflexivity].
    simpl in E. discriminate.
Qed.

Lemma first_supported_resolution_is_taken_witness :
  exists cap',
    CameraOperator.try_resolutions webcam_set webcam_get (800, 600)%Z
      Config.CAMERA_RESOLUTIONS = (true, cap') /\
    CameraOperator.frame_size webcam_get cap' = (640, 360)%Z.
Proof.
  exact (first_supported_resolution_is_taken (Z * Z) webcam_set webcam_get
           webcam_supports webcam_reports_back
           Config.CAMERA_RESOLUTIONS (800, 600)%Z).
Defined.

(** ** The acquisition loop *)

Section AcquisitionLoop.

Import CameraOperator.

Variable frame : Type.
Variable flip : frame -> option frame.

Local Open Scope nat_scope.

Lemma get_frame_returns (q : queue frame) :
  exists r q', get_frame q = Returns r q' /\ length q' <= length q.
Proof.
  destruct q as [|f q]; cbn; eauto.
Qed.

Ltac loop_step IH e :=
  cbn [consecutive_errors frame_queue camera_initialized] in IH;
  match type of IH with
  | match ?p with _ => _ end =>
      destruct p as [?g'|?g'|?g'|]; [| | |exact IH]
  end;
  [ destruct IH as (?H1 & ?H2 & ?H3 & ?H4 & ?H5)
  | destruct IH as (?b & ?a & -> & ?H1 & ?H2 & ?H3 & ?H4 & ?H5);
    exists (e :: b), a
  | destruct IH as (?b & ?r & ?a & -> & ?H1 & ?H2 & ?H3 & ?H4 & ?H5);
    exists (e :: b), r, a ];
  cbn [app forallb still_running streak existsb delivers andb orb].

(** X15.  In a run of the loop of [_update_frame] from fewer than five
    counted failures, with calls of [get_frame] in between: while the
    loop goes on, [self.running] was true at every pass, the counter is
    the number of failed reads since the last frame (an exception in
    [read] does not count and does not reset), it is below five, the
    queue holds at most one frame, and [camera_initialized] is set once
    a frame has been put.  [_init_camera] is called again exactly at a
    failed read that is the fifth in a row, with the counter at five.
    The loop is left at the first pass that finds [self.running] false.
    No call on the queue waits. *)
Theorem reinitialization_at_the_fifth_failed_read
    (es : list (event frame)) :
  forall g : grabber frame,
  consecutive_errors g < max_errors ->
  length (frame_queue g) <= maxsize ->
  match passes flip g es with
  | GoesOn g' =>
      forallb still_running es = true /\
      consecutive_errors g' = streak (consecutive_errors g) es /\
      consecutive_errors g' < max_errors /\
      length (frame_queue g') <= maxsize /\
      camera_initialized g'
      = camera_initialized g || existsb (delivers flip) es
  | Reinitializes g' =>
      exists before after,
        es = before ++ LoopPass true NotGrabbed :: after /\
        forallb still_running before = true /\
        S (streak (consecutive_errors g) before) = max_errors /\
        consecutive_errors g' = max_errors /\
        length (frame_queue g') <= maxsize /\
        camera_initialized g'
        = camera_initialized g || existsb (delivers flip) before
  | Exits g' =>
      exists before r after,
        es = before ++ LoopPass false r :: after /\
        forallb still_running before = true /\
        consecutive_errors g' = streak (consecutive_errors g) before /\
        consecutive_errors g' < max_errors /\
        length (frame_queue g') <= maxsize /\
        camera_initialized g'
        = camera_initialized g || existsb (delivers flip) before
  | Waits => False
  end.
Proof.
  induction es as [|[running r|] es IH]; intros g Hc Hq.
  - cbn. rewrite orb_false_r. auto.
  - cbn [passes]. unfold one_pass.
    destruct running; cbn [negb];
      [|exists [], r, es; cbn; rewrite orb_false_r; repeat split; auto].
    destruct r as [f| |].
    + destruct (flip f) as [mirrored|] eqn:Ef.
      * rewrite publish_returns.
        specialize (IH {| consecutive_errors := 0;
                          frame_queue := [mirrored];
                          camera_initialized := true |}
                       ltac:(cbn; unfold max_errors; lia)
                       ltac:(cbn; unfold maxsize; lia)).
        loop_step IH (LoopPass true (Grabbed f)); rewrite Ef;
          cbn [orb]; rewrite ?orb_true_r; auto 10.
      * specialize (IH {| consecutive_errors := 0;
                          frame_queue := frame_queue g;
                          camera_initialized := camera_initialized g |}
                       ltac:(cbn; unfold max_errors; lia) Hq).
        loop_step IH (LoopPass true (Grabbed f)); rewrite Ef;
          cbn [orb]; auto 10.
    + destruct (Nat.leb max_errors (S (consecutive_errors g))) eqn:E.
      * apply Nat.leb_le in E. exists [], es. cbn.
        rewrite orb_false_r. repeat split; auto; lia.
      * apply Nat.leb_gt in E.
        specialize (IH {| consecutive_errors := S (consecutive_errors g);
                          frame_queue := frame_queue g;
                          camera_initialized := camera_initialized g |}
                       E Hq).
        loop_step IH (LoopPass true (@NotGrabbed frame)); auto 10.
    + specialize (IH g Hc Hq).
      loop_step IH (LoopPass true (@ReadRaised frame)); auto 10.
  - cbn [passes].
    destruct (get_frame_returns (frame_queue g)) as (taken & q' & -> & Hlen).
    specialize (IH {| consecutive_errors := consecutive_errors g;
                      frame_queue := q';
                      camera_initialized := camera_initialized g |}
                   Hc ltac:(cbn; lia)).
    loop_step IH (@FrameTaken frame); auto 10.
Qed.

End AcquisitionLoop.

Lemma reinitialization_at_the_fifth_failed_read_witness :
  let es :=
    [CameraOperator.LoopPass true (CameraOperator.Grabbed 7%nat);
     CameraOperator.LoopPass true CameraOperator.NotGrabbed;
     CameraOperator.LoopPass true CameraOperator.NotGrabbed;
     CameraOperator.FrameTaken;
     CameraOperator.LoopPass true CameraOperator.ReadRaised;
     CameraOperator.LoopPass true CameraOperator.NotGrabbed;
     CameraOperator.LoopPass true CameraOperator.NotGrabbed;
     CameraOperator.LoopPass true CameraOperator.NotGrabbed;
     CameraOperator.LoopPass true (CameraOperator.Grabbed 8%nat)] in
  let g' :=
    {| CameraOperator.consecutive_errors := 5;
       CameraOperator.frame_queue := [];
       CameraOperator.camera_initialized := true |} in
  CameraOperator.passes Some CameraOperator.grabber_init es
  = CameraOperator.Reinitializes g' /\
  exists before after,
    es = before
         ++ CameraOperator.LoopPass true CameraOperator.NotGrabbed :: after /\
    forallb still_running before = true /\
    S (streak 0 before) = CameraOperator.max_errors /\
    CameraOperator.consecutive_errors g' = CameraOperator.max_errors /\
    (length (CameraOperator.frame_queue g') <= CameraOperator.maxsize)%nat /\
    CameraOperator.camera_initialized g'
    = false || existsb (delivers Some) before.
Proof.
  intros es g'. split; [reflexivity|].
  apply (reinitialization_at_the_fifth_failed_read nat Some es
           CameraOperator.grabber_init).
  - cbn. unfold CameraOperator.max_errors. lia.
  - cbn. unfold CameraOperator.maxsize. lia.
Defined.

(** ** The coarse classifier *)

Section Classifier.

Import HandTracker.

Ltac decide_reals :=
  repeat first
    [ progress cbn [fst snd]
    | match goal with
      | |- context [Rcase_abs ?a] => destruct (Rcase_abs a); try lra
      end
    | match goal with
      | |- context [Rle_dec ?a ?b] => destruct (Rle_dec a b); try lra
      | |- context [Rlt_dec ?a ?b] => destruct (Rlt_dec a b); try lra
      end ].

(** X17.  The tag of a normalized distance [d], read off the three
    ranges of [GESTURE_TYPES] and the rule of the closest mid-range:
    "fist" from 0.02 to 0.1675, "point_up" above that and below 0.2625,
    "palm" from 0.2625 to 0.5, and "unknown" below 0.02 and above 0.5. *)
Theorem classify_ranges (d : R) :
  (d < 2 / 100 \/ 5 / 10 < d -> classify d = "unknown"%string) /\
  (2 / 100 <= d <= 1675 / 10000 -> classify d = "fist"%string) /\
  (1675 / 10000 < d < 2625 / 10000 -> classify d = "point_up"%string) /\
  (2625 / 10000 <= d <= 5 / 10 -> classify d = "palm"%string).
Proof.
  unfold classify, Config.GESTURE_TYPES.
  cbn [fold_left]. unfold consider.
  cbn [Config.min_landmark_dist Config.max_landmark_dist].
  repeat split; intros H; unfold Rabs; decide_reals; try reflexivity.
Qed.

Lemma classify_ranges_witness :
  classify (1675 / 10000) = "fist"%string /\
  classify (2625 / 10000) = "palm"%string /\
  classify (2 / 10) = "point_up"%string /\
  classify 0 = "unknown"%string.
Proof.
  split; [|split; [|split]].
  - apply (classify_ranges (1675 / 10000)). lra.
  - apply (classify_ranges (2625 / 10000)). lra.
  - apply (classify_ranges (2 / 10)). lra.
  - apply (classify_ranges 0). left. lra.
Defined.

End Classifier.

Section History.

Import HandTracker.

Lemma count_not_in (t : string) (l : list string) :
  ~ In t l -> count t l = 0%nat.
Proof.
  induction l as [|x l IH]; intros H; [reflexivity|].
  cbn [count]. destruct (String.eqb_spec x t) as [->|Hne].
  - exfalso. apply H. now left.
  - rewrite IH; [reflexivity|]. intros Hin. apply H. now right.
Qed.

Lemma keys_in (l : list string) (t : string) : In t (keys l) <-> In t l.
Proof.
  induction l as [|x l IH]; [reflexivity|].
  cbn [keys]. split.
  - intros [<-|H]; [now left|].
    apply filter_In in H. right. now apply IH.
  - intros [<-|H]; [now left|].
    destruct (String.eqb_spec t x) as [->|Hne]; [now left|].
    right. apply filter_In. split; [now apply IH|].
    apply negb_true_iff, String.eqb_neq. exact Hne.
Qed.

Lemma first_max_spec (l : list string) (ks : list string) :
  forall best,
    (first_max l best ks = best \/ In (first_max l best ks) ks) /\
    (count best l <= count (first_max l best ks) l)%nat /\
    (forall k, In k ks -> (count k l <= count (first_max l best ks) l)%nat).
Proof.
  induction ks as [|k ks IH]; intros best; cbn [first_max].
  - repeat split; auto. intros k [].
  - destruct (Nat.ltb_spec (count best l) (count k l)) as [Hlt|Hge].
    + destruct (IH k) as (Hin & Hbest & Hall).
      split; [right; destruct Hin as [->|Hin]; [now left | now right]|].
      split; [lia|].
      intros k' [<-|Hk']; [exact Hbest | now apply Hall].
    + destruct (IH best) as (Hin & Hbest & Hall).
      split; [destruct Hin as [Hin|Hin]; [now left | right; now right]|].
      split; [exact Hbest|].
      intros k' [<-|Hk']; [lia | now apply Hall].
Qed.

(** The most common tag of a list that is not empty occurs in it, and no
    tag occurs more often. *)
Lemma most_common_mode (l : list string) :
  l <> [] ->
  exists tag, most_common l = Ok tag /\ In tag l /\
              forall t, (count t l <= count tag l)%nat.
Proof.
  intros Hne. unfold most_common.
  destruct (keys l) as [|k ks] eqn:E.
  - destruct l as [|x l]; [contradiction|]. discriminate.
  - destruct (first_max_spec l ks k) as (Hin & Hk & Hall).
    exists (first_max l k ks). split; [reflexivity|]. split.
    + apply keys_in. rewrite E.
      destruct Hin as [->|Hin]; [now left | now right].
    + intros t. destruct (in_dec string_dec t l) as [Ht|Ht].
      * apply keys_in in Ht. rewrite E in Ht.
        destruct Ht as [<-|Ht]; [exact Hk | now apply Hall].
      * rewrite (count_not_in t l Ht). lia.
Qed.


Lemma normalized_dist_bad_size (l : list R) :
  (length l mod 3 <> 0)%nat -> normalized_dist l = Raise ValueError.
Proof.
  intros Hmod. unfold normalized_dist.
  pose proof (reshape3_outcome l) as H.
  destruct (reshape3 l) as [rows|e]; cbn [Py.bind].
  - destruct H as [Hlen _]. exfalso. apply Hmod.
    rewrite Hlen, Nat.mul_comm. apply Nat.Div0.mod_mul.
  - now destruct H as [-> _].
Qed.

Lemma normalized_dist_returns (l : list R) :
  (length l mod 3 = 0)%nat -> (39 <= length l)%nat ->
  exists d, normalized_dist l = Ok d.
Proof.
  intros Hmod Hlen. unfold normalized_dist, _get_average_landmark_distance.
  pose proof (reshape3_outcome l) as H.
  destruct (reshape3 l) as [rows|e]; cbn [Py.bind].
  - destruct H as [Hrows _].
    rewrite !row_nth by lia. cbn [Py.bind].
    destruct (Nat.ltb_spec (length l) 2); [lia|]. cbn [Py.bind].
    destruct (pairwise rows); cbn [Py.bind]; eexists; reflexivity.
  - destruct H as [_ H]. contradiction.
Qed.

(** X18.  [_recognize_gesture] turns down a landmark list shorter than
    63 scalars, or of a size that is not a multiple of three, with
    "unknown" and leaves the history alone.  Otherwise it appends the tag
    of the frame, drops the oldest tag when that makes six, and returns a
    tag of this window that no other tag outnumbers; the window never
    holds more than five tags. *)
Theorem recognized_tag_is_a_mode_of_the_window
    (h : list string) (landmarks : list R) :
  (length h <= history_length)%nat ->
  ((length landmarks < 63)%nat \/ (length landmarks mod 3 <> 0)%nat ->
     _recognize_gesture h landmarks = ("unknown"%string, h)) /\
  ((63 <= length landmarks)%nat -> (length landmarks mod 3 = 0)%nat ->
     exists d tag,
       normalized_dist landmarks = Ok d /\
       let h' :=
         (if Nat.ltb (length h) history_length then h else tl h)
         ++ [classify d] in
       _recognize_gesture h landmarks = (tag, h') /\
       (length h' <= history_length)%nat /\
       In tag h' /\
       forall t, (count t h' <= count tag h')%nat).
Proof.
  unfold history_length. intros Hh. split.
  - intros Hbad. unfold _recognize_gesture.
    destruct (Nat.ltb_spec (length landmarks) (21 * 3)) as [_|Hlong];
      [reflexivity|].
    destruct Hbad as [Hshort|Hmod]; [simpl in Hlong; lia|].
    now rewrite normalized_dist_bad_size.
  - intros Hlen Hmod.
    destruct (normalized_dist_returns landmarks Hmod ltac:(lia)) as [d Hd].
    set (h' := (if Nat.ltb (length h) 5 then h else tl h) ++ [classify d]).
    assert (Hwin : (if Nat.ltb 5 (length (h ++ [classify d]))
                    then tl (h ++ [classify d]) else h ++ [classify d]) = h').
    { unfold h'. rewrite length_app. cbn [length].
      destruct (Nat.ltb_spec (length h) 5) as [Hlt|Hge];
        destruct (Nat.ltb_spec 5 (length h + 1)) as [Hlt'|Hge']; try lia;
        [reflexivity|].
      destruct h; [simpl in Hge; lia | reflexivity]. }
    assert (Hne : h' <> [])
      by (unfold h'; intros E; now apply app_eq_nil in E as [_ E]).
    destruct (most_common_mode h' Hne) as (tag & Htag & Hin & Hmode).
    exists d, tag. split; [exact Hd|]. cbv zeta. fold h'.
    split; [|split; [|split; [exact Hin | exact Hmode]]].
    + unfold _recognize_gesture.
      destruct (Nat.ltb_spec (length landmarks) (21 * 3)) as [Hshort|_];
        [simpl in Hshort; lia|].
      rewrite Hd. unfold history_length. rewrite Hwin, Htag. reflexivity.
    + unfold h'. rewrite length_app. cbn [length].
      destruct (Nat.ltb_spec (length h) 5) as [Hlt|Hge]; [lia|].
      destruct h; simpl in *; lia.
Qed.

Lemma recognized_tag_is_a_mode_of_the_window_witness :
  (length ["fist"%string; "palm"%string] <= history_length)%nat /\
  exists d tag,
    normalized_dist palm_landmarks = Ok d /\
    let h' :=
      (if Nat.ltb (length ["fist"%string; "palm"%string]) history_length
       then ["fist"%string; "palm"%string]
       else tl ["fist"%string; "palm"%string])
      ++ [classify d] in
    _recognize_gesture ["fist"%string; "palm"%string] palm_landmarks
    = (tag, h') /\
    (length h' <= history_length)%nat /\
    In tag h' /\
    forall t, (count t h' <= count tag h')%nat.
Proof.
  assert (H : (length ["fist"%string; "palm"%string] <= history_length)%nat)
    by (unfold history_length; simpl; lia).
  split; [exact H|].
  apply (recognized_tag_is_a_mode_of_the_window
           ["fist"%string; "palm"%string] palm_landmarks H);
    simpl; [lia | reflexivity].
Defined.

End History.


(** ** Enrollment and the per-hand step of the application *)

Section Enrollment.

Import SignToSpeechApp.

Lemma heads_nonempty (ls : list (list R)) :
  (forall l, In l ls -> (1 <= length l)%nat) ->
  exists hs, heads ls = Some hs /\ length hs = length ls.
Proof.
  induction ls as [|l ls IH]; intros H.
  - now exists [].
  - destruct l as [|x l]; [specialize (H [] (or_introl eq_refl)); simpl in H; lia|].
    destruct IH as (hs & Hhs & Hlen); [intros l' Hl'; apply H; now right|].
    exists (x :: hs). cbn [heads]. rewrite Hhs. split; [reflexivity|].
    simpl. now rewrite Hlen.
Qed.

Lemma heads_empty (ls : list (list R)) :
  In [] ls -> heads ls = None.
Proof.
  induction ls as [|l ls IH]; intros H; [contradiction|].
  destruct l as [|x l]; [reflexivity|].
  destruct H as [H|H]; [discriminate|].
  cbn [heads]. now rewrite IH.
Qed.

(** [zip] makes as many tuples as the shortest list is long. *)
Lemma zip_upto_length (k : nat) :
  forall (ls : list (list R)) (n : nat),
    (forall l, In l ls -> (n <= length l)%nat) ->
    (exists l, In l ls /\ length l = n) ->
    (n <= k)%nat ->
    length (zip_upto k ls) = n /\
    forall x, In x (zip_upto k ls) -> length x = length ls.
Proof.
  induction k as [|k IH]; intros ls n Hall (l0 & Hin0 & Hl0) Hk.
  - split; [simpl; lia | intros x []].
  - cbn [zip_upto]. destruct n as [|n].
    + destruct l0; [|discriminate].
      rewrite heads_empty by exact Hin0. split; [reflexivity | intros x []].
    + destruct (heads_nonempty ls) as (hs & Hhs & Hlen).
      { intros l Hl. specialize (Hall l Hl). lia. }
      rewrite Hhs.
      destruct (IH (map (@tl R) ls) n) as [Hlen' Hrows].
      * intros l Hl. apply in_map_iff in Hl. destruct Hl as (l' & <- & Hl').
        specialize (Hall l' Hl'). destruct l'; simpl in *; lia.
      * exists (tl l0). split; [now apply in_map|].
        destruct l0; simpl in *; lia.
      * lia.
      * split; [simpl; now rewrite Hlen'|].
        intros x [<-|Hx]; [exact Hlen|].
        rewrite (Hrows x Hx). apply length_map.
Qed.

(** X20.  The averaged landmark list has as many scalars as the shortest
    of the captured samples: longer samples are cut. *)
Theorem average_has_the_size_of_the_shortest_sample
    (landmarks_list : list (list R)) (n : nat) :
  (forall l, In l landmarks_list -> (n <= length l)%nat) ->
  (exists l, In l landmarks_list /\ length l = n) ->
  length (avg_landmarks landmarks_list) = n.
Proof.
  intros Hall Hex. unfold avg_landmarks, zip_star. rewrite length_map.
  destruct landmarks_list as [|l0 ls].
  - destruct Hex as (l & [] & _).
  - apply (zip_upto_length (length l0) (l0 :: ls) n Hall Hex).
    apply Hall. now left.
Qed.

Lemma average_has_the_size_of_the_shortest_sample_witness :
  length (avg_landmarks [fist_landmarks; [1; 2; 3]; palm_landmarks]) = 3%nat.
Proof.
  apply (average_has_the_size_of_the_shortest_sample
           [fist_landmarks; [1; 2; 3]; palm_landmarks] 3).
  - intros l [<-|[<-|[<-|[]]]]; simpl; lia.
  - exists [1; 2; 3]. split; [right; now left | reflexivity].
Defined.

End Enrollment.

Section Pipeline.

Import SignToSpeechApp.

(** X22.  For one detected hand the application either does nothing to
    the gate and emits nothing, or the matcher has returned an entry of
    the library for these landmarks at the configured threshold, the
    gate has fired for it, the text shown and spoken is the message of
    that entry, and the gate now holds its identifier and the current
    time. *)
Theorem only_messages_of_matched_entries_are_spoken
    (lib : library) (g : gate) (h : list string) (now : R)
    (landmarks : list R) :
  let g' := fst (fst (process_hand lib g h now landmarks)) in
  let out := snd (process_hand lib g h now landmarks) in
  (g' = g /\ out = []) \/
  exists m,
    find_similar_gesture lib landmarks Config.GESTURE_RECOGNITION_THRESHOLD
    = Some m /\
    In (id m, entry m) lib /\
    (current_gesture g <> Some (id m) \/ now - last_gesture_time g > 5) /\
    out = [SetRecognizedText (message (entry m)); Speak (message (entry m))] /\
    g' = {| current_gesture := Some (id m); last_gesture_time := now |}.
Proof.
  cbv zeta. unfold process_hand.
  destruct landmarks as [|x landmarks]; [now left|].
  destruct (HandTracker._recognize_gesture h (x :: landmarks)) as [tag h'].
  destruct (find_similar_gesture lib (x :: landmarks)
              Config.GESTURE_RECOGNITION_THRESHOLD) as [m|] eqn:E;
    [|now left].
  destruct (fires g now m) eqn:F.
  - right. exists m. rewrite (handle_fires g now m F). cbn [fst snd].
    split; [reflexivity|].
    split; [apply (find_similar_gesture_sound _ _ _ _ E)|].
    split; [now apply fires_spec|]. split; reflexivity.
  - left. rewrite (handle_silent g now m F). now split.
Qed.

End Pipeline.

(** ** Runs of the gate; enrolling, deleting and matching *)

Section GateRuns.

Import SignToSpeechApp.

Lemma fired_cons (g : gate) (t : R) (m : matched) (ms : list (R * matched)) :
  fired g ((t, m) :: ms)
  = if fires g t m
    then (t, id m)
         :: fired {| current_gesture := Some (id m); last_gesture_time := t |} ms
    else fired g ms.
Proof.
  unfold fired. cbn [handle_all].
  destruct (fires g t m) eqn:F.
  - rewrite (handle_fires g t m F).
    destruct (handle_all _ ms) as [g2 outs]. reflexivity.
  - rewrite (handle_silent g t m F).
    destruct (handle_all g ms) as [g2 outs]. reflexivity.
Qed.

(** X23.  In any run of the gate, whatever the matches and their times,
    a trigger is for another identifier than the trigger just before it
    or comes more than five seconds after that trigger.  Nothing more
    holds of triggers that are not next to each other: the matches
    fist, palm, fist at 100, 101 and 102 seconds fire all three, the
    fist twice within two seconds. *)
Theorem consecutive_triggers_differ_or_are_spaced
    (ms : list (R * matched)) (g : gate) :
  spaced (current_gesture g, last_gesture_time g) (fired g ms) /\
  let a := {| id := "fist_default"; entry := fist |} in
  let b := {| id := "palm_default";
              entry := default_gesture "Palm" palm_landmarks
                         "WAIT A MINUTE" |} in
  fired gate_init [(100, a); (101, b); (102, a)]
  = [(100, "fist_default"%string); (101, "palm_default"%string);
     (102, "fist_default"%string)].
Proof.
  split.
  - revert g. induction ms as [|[t m] ms IH]; intros g; [exact I|].
    rewrite fired_cons. destruct (fires g t m) eqn:F.
    + cbn [spaced fst snd]. split; [now apply fires_spec|].
      apply (IH {| current_gesture := Some (id m); last_gesture_time := t |}).
    + apply IH.
  - cbv zeta. rewrite !fired_cons.
    unfold fires. cbn [current_gesture gate_init differs id].
    cbn [String.eqb Ascii.eqb Bool.eqb negb orb].
    reflexivity.
Qed.

End GateRuns.

Section EnrollThenMatch.

Lemma dict_get_in (d : library) (k : string) (v : gesture) :
  dict_get d k = Some v -> In (k, v) d.
Proof.
  induction d as [|[k' v'] d IH]; simpl; [discriminate|].
  destruct (String.eqb_spec k' k) as [->|Hne].
  - intros [= ->]. now left.
  - intros H. right. now apply IH.
Qed.

Lemma norm3_origin : norm3 origin = 0.
Proof.
  unfold norm3, origin. replace (0 * 0 + 0 * 0 + 0 * 0) with 0 by ring.
  apply sqrt_0.
Qed.

(** Two arrays with the same wrist and the same joint 9 are moved and
    scaled alike: a joint at which they agree is at distance 0 after
    normalization. *)
Lemma agreeing_joint_distance (a b : list point) (i : nat) :
  length a = 21%nat -> length b = 21%nat ->
  nth 0 a origin = nth 0 b origin ->
  nth 9 a origin = nth 9 b origin ->
  (i < 21)%nat ->
  nth i a origin = nth i b origin ->
  Spec.joint_distance (flatten (normalize_rows a))
                      (flatten (normalize_rows b)) i = 0.
Proof.
  intros Ha Hb H0 H9 Hi Heq. rewrite joint_distance_rows.
  assert (Hn : nth i (normalize_rows a) origin
               = nth i (normalize_rows b) origin).
  { unfold normalize_rows.
    rewrite !nth_sub_row by lia. rewrite <- H0, <- H9.
    destruct (Rgt_dec _ _).
    - rewrite !nth_div_scalar by (unfold sub_row; rewrite length_map; lia).
      rewrite !nth_sub_row by lia. now rewrite Heq.
    - rewrite !nth_sub_row by lia. now rewrite Heq. }
  rewrite Hn, vsub_self. apply norm3_origin.
Qed.

Lemma joint_distance_nonneg (a b : list R) (i : nat) :
  0 <= Spec.joint_distance a b i.
Proof.
  unfold Spec.joint_distance.
  destruct (Spec.point_at a i) as [[x y] z].
  destruct (Spec.point_at b i) as [[u v] w]. apply sqrt_pos.
Qed.

(** The default fist and the default point-up differ in joints 5 to 8
    only: seventeen of their joint distances are 0, so the sixteen
    lowest are, and the similarity is 1. *)
Lemma point_up_scores_one_on_fist :
  score (flatten (normalize_rows (rows_of point_up_landmarks))) fist = Some 1.
Proof.
  assert (Hsim : similarity_to
                   (flatten (normalize_rows (rows_of point_up_landmarks)))
                   fist_landmarks = Ok 1).
  { rewrite <- fist_rows.
    rewrite similarity_to_rows
      by (try rewrite normalize_rows_length; reflexivity).
    set (d := Spec.joint_distance
                (flatten (normalize_rows (rows_of point_up_landmarks)))
                (flatten (normalize_rows (rows_of fist_landmarks)))).
    set (chosen :=
           [0; 1; 2; 3; 4; 9; 10; 11; 12; 13; 14; 15; 16; 17; 18; 19]%nat).
    set (rest := [5; 6; 7; 8; 20]%nat).
    assert (Hzero : Forall (fun i => d i = 0) chosen).
    { unfold chosen, d.
      repeat (constructor;
              [apply agreeing_joint_distance; try reflexivity; lia|]).
      constructor. }
    assert (Hlow : Spec.lowest 16
                     (Spec.joint_distances
                        (flatten (normalize_rows (rows_of point_up_landmarks)))
                        (flatten (normalize_rows (rows_of fist_landmarks))))
                     (map d chosen)).
    { split; [reflexivity|]. exists (map d rest). split.
      - rewrite <- map_app. unfold Spec.joint_distances. fold d.
        apply Permutation_map. unfold Spec.joints, chosen, rest.
        cbn [seq app]. do 5 apply perm_skip.
        apply (Permutation_app_swap_app
                 [5; 6; 7; 8]%nat
                 [9; 10; 11; 12; 13; 14; 15; 16; 17; 18; 19]%nat
                 [20]%nat).
      - intros x y Hx Hy.
        apply in_map_iff in Hx. destruct Hx as (i & <- & Hi).
        apply in_map_iff in Hy. destruct Hy as (j & <- & _).
        rewrite Forall_forall in Hzero. rewrite (Hzero i Hi).
        apply joint_distance_nonneg. }
    rewrite <- (lowest_sum_unique 16 _ _ Hlow).
    rewrite sum_zeros.
    - unfold Spec.similarity_of. f_equal. field.
    - rewrite Forall_forall. intros x Hx.
      apply in_map_iff in Hx. destruct Hx as (i & <- & Hi).
      rewrite Forall_forall in Hzero. now apply Hzero. }
  unfold score, fist, default_gesture. cbn [landmarks].
  rewrite Hsim. reflexivity.
Qed.

(** The first entry, in iteration order, that scores 1. *)
Lemma first_scoring_one (nq : list R) (lib : library) :
  (exists gid g, In (gid, g) lib /\ score nq g = Some 1) ->
  exists before gid g after,
    lib = before ++ (gid, g) :: after /\
    score nq g = Some 1 /\
    forall gid' g', In (gid', g') before -> score nq g' <> Some 1.
Proof.
  induction lib as [|[k v] lib IH]; intros (gid & g & Hin & Hs);
    [contradiction|].
  assert (Hdec : score nq v = Some 1 \/ score nq v <> Some 1).
  { destruct (score nq v) as [s|]; [|right; discriminate].
    destruct (Req_dec_T s 1) as [->|Hne]; [now left|].
    right. intros [= E]. contradiction. }
  destruct Hdec as [Hv|Hv].
  - exists [], k, v, lib. split; [reflexivity|]. split; [exact Hv|].
    intros ? ? [].
  - assert (Hex : exists gid g, In (gid, g) lib /\ score nq g = Some 1).
    { destruct Hin as [[= -> ->]|Hin]; [contradiction | eauto]. }
    destruct (IH Hex) as (before & gid0 & g0 & after & -> & Hs0 & Hbefore).
    exists ((k, v) :: before), gid0, g0, after. repeat split; auto.
    intros gid' g' [[= <- <-]|Hin']; [exact Hv | now apply (Hbefore gid')].
Qed.

(** What [d[k] = v] holds, when no key is there twice. *)
Lemma dict_set_in (d : library) (k0 : string) (v0 : gesture)
    (k : string) (v : gesture) :
  NoDup (ids d) ->
  In (k, v) (dict_set d k0 v0) ->
  (k, v) = (k0, v0) \/ (k <> k0 /\ In (k, v) d).
Proof.
  induction d as [|[k' v'] d IH]; intros Hd; cbn [dict_set].
  - intros [H|[]]. left. now symmetry.
  - unfold ids in Hd. cbn [map fst] in Hd. inversion Hd as [|? ? Hk' Hd']; subst.
    destruct (String.eqb_spec k' k0) as [->|Hne].
    + intros [H|H]; [left; now symmetry|].
      right. split; [|now right].
      intros ->. apply Hk'. apply (in_map fst _ _ H).
    + intros [[= <- <-]|H]; [right; split; [exact Hne | now left]|].
      destruct (IH Hd' H) as [Heq|[Hk Hin]]; [now left|].
      right. split; [exact Hk | now right].
Qed.

(** X24.  After a gesture has been added with a 21-point landmark list
    [F], whether or not the save succeeded, the query [F] gets a match
    for every threshold at most 1: the added gesture is in the library
    and its similarity is 1, and the match is the first entry, in
    iteration order, whose similarity is 1.  So the match is the added
    gesture when no entry under another identifier has similarity 1,
    and an earlier entry that has is matched instead: with the default
    library, the query of an added point-up gets the default fist, which
    differs from it in joints 5 to 8 only. *)
Theorem first_entry_scoring_one_is_matched_after_adding
    (f : fault) (now : Z) (w : world) (gesture_id name message : string)
    (F : list R) (threshold : R) :
  length F = 63%nat -> threshold <= 1 ->
  NoDup (ids (gestures w)) ->
  let w' := snd (add_gesture f now w gesture_id name F message) in
  let new := {| GestureDatabase.name := name;
                GestureDatabase.landmarks := Some F;
                GestureDatabase.message := message;
                created_at := now; is_default := false |} in
  exists nq before m after,
    _normalize_landmarks F = Ok nq /\
    In (gesture_id, new) (get_all_gestures w') /\
    score nq new = Some 1 /\
    find_similar_gesture (get_all_gestures w') F threshold = Some m /\
    get_all_gestures w' = before ++ (id m, entry m) :: after /\
    score nq (entry m) = Some 1 /\
    (forall gid g, In (gid, g) before -> score nq g <> Some 1) /\
    ((forall gid g, In (gid, g) (gestures w) -> gid <> gesture_id ->
                    score nq g <> Some 1) ->
     m = {| id := gesture_id; entry := new |}).
Proof.
  intros HF Hth Hd. cbv zeta. unfold get_all_gestures, add_gesture.
  destruct F as [|x F]; [discriminate|].
  rewrite save_keeps_memory. unfold store. cbn [gestures].
  set (new := {| GestureDatabase.name := name;
                 GestureDatabase.landmarks := Some (x :: F);
                 GestureDatabase.message := message;
                 created_at := now; is_default := false |}).
  set (lib := dict_set (gestures w) gesture_id new).
  assert (Hin : In (gesture_id, new) lib)
    by (apply dict_get_in, dict_get_set_same).
  destruct (normalize_landmarks_total 21 (x :: F))
    as (rows & Hflat & Hrows & Hnorm); [lia | exact HF |].
  set (nq := flatten (normalize_rows rows)) in *.
  assert (Hnew : score nq new = Some 1)
    by (apply score_self; [exact Hrows | now rewrite Hflat]).
  destruct (first_scoring_one nq lib)
    as (before & gid & g & after & Hlib & Hs & Hbefore); [eauto|].
  exists nq, before, {| id := gid; entry := g |}, after. cbn [id entry].
  split; [exact Hnorm|]. split; [exact Hin|]. split; [exact Hnew|].
  split; [|split; [exact Hlib|split; [exact Hs|split; [exact Hbefore|]]]].
  - rewrite find_similar_gesture_eq;
      [| discriminate | intros E; rewrite E in Hin; contradiction].
    rewrite Hnorm. fold nq. rewrite Hlib.
    rewrite (scan_first_best nq before after gid g 1 Hs).
    + cbn [best_score best_match leader].
      destruct (Rge_dec 1 threshold) as [_|Hn]; [reflexivity | lra].
    + intros gid' g' s' Hin' Hs'.
      pose proof (score_range nq g' s' Hs') as Hr.
      assert (s' <> 1) by (intros ->; now apply (Hbefore gid' g' Hin')).
      lra.
    + intros gid' g' s' _ Hs'. apply (score_range nq g' s' Hs').
  - intros Hothers.
    assert (Hg : In (gid, g) lib)
      by (rewrite Hlib; apply in_or_app; right; now left).
    destruct (dict_set_in _ _ _ _ _ Hd Hg) as [[= -> ->]|[Hne Hold]];
      [reflexivity|].
    exfalso. exact (Hothers gid g Hold Hne Hs).
Qed.

Lemma first_entry_scoring_one_is_matched_after_adding_witness :
  let w := {| gestures := _get_default_gestures;
              disk := {| db_file := None; tmp_file := None |};
              stdout := [] |} in
  let w' := snd (add_gesture NoFault 1700000000 w "point_1700000000"
                   "Point" point_up_landmarks "LOOK UP") in
  find_similar_gesture (get_all_gestures w') point_up_landmarks
    Config.GESTURE_RECOGNITION_THRESHOLD
  = Some {| id := "fist_default"; entry := fist |}.
Proof.
  intros w w'.
  destruct (first_entry_scoring_one_is_matched_after_adding
              NoFault 1700000000 w "point_1700000000" "Point" "LOOK UP"
              point_up_landmarks Config.GESTURE_RECOGNITION_THRESHOLD)
    as (nq & before & m & after & Hnq & _ & _ & Hfind & Hlib & _ & Hbefore & _).
  - reflexivity.
  - unfold Config.GESTURE_RECOGNITION_THRESHOLD. lra.
  - exact default_ids_distinct.
  - fold w' in Hfind, Hlib. rewrite Hfind. f_equal.
    assert (Hnq' : _normalize_landmarks point_up_landmarks
                   = Ok (flatten (normalize_rows (rows_of point_up_landmarks))))
      by (apply (normalize_landmarks_rows (rows_of point_up_landmarks));
          simpl; lia).
    rewrite Hnq' in Hnq. injection Hnq as <-.
    destruct before as [|item before].
    + cbn [app] in Hlib. injection Hlib as Hid He _.
      destruct m as [i e]. cbn [id entry] in Hid, He. now subst.
    + exfalso. cbn [app] in Hlib. injection Hlib as Hitem _.
      apply (Hbefore "fist_default"%string fist).
      * left. now symmetry.
      * exact point_up_scores_one_on_fist.
Defined.

(** X25.  A deleted gesture is never matched again: after
    [delete_gesture], whatever the query and the threshold, the matcher
    does not return the deleted identifier. *)
Theorem deleted_gesture_is_never_matched
    (f : fault) (w : world) (gesture_id : string)
    (q : list R) (threshold : R) (m : matched) :
  NoDup (ids (gestures w)) ->
  let w' := snd (delete_gesture f w gesture_id) in
  find_similar_gesture (get_all_gestures w') q threshold = Some m ->
  id m <> gesture_id.
Proof.
  intros Hd. cbv zeta. intros Hfind.
  apply find_similar_gesture_sound in Hfind. destruct Hfind as [Hin _].
  assert (Hid : In (id m) (ids (get_all_gestures (snd (delete_gesture f w gesture_id)))))
    by (unfold ids; apply (in_map fst _ _ Hin)).
  unfold get_all_gestures, delete_gesture, dict_mem in Hid.
  intros Heq.
  destruct (dict_get (gestures w) gesture_id) as [g|] eqn:E.
  - rewrite save_keeps_memory in Hid. cbn [gestures] in Hid.
    rewrite ids_dict_del in Hid by exact Hd.
    apply filter_In in Hid. destruct Hid as [_ Hid].
    rewrite Heq, String.eqb_refl in Hid. discriminate.
  - cbn [snd] in Hid. apply (dict_mem_ids (gestures w)) in Hid.
    unfold dict_mem in Hid. rewrite Heq, E in Hid. discriminate.
Qed.

Lemma fist_first_of_two :
  find_similar_gesture
    [("fist_default"%string, fist);
     ("palm_default"%string,
      default_gesture "Palm" palm_landmarks "WAIT A MINUTE")]
    fist_landmarks default_threshold
  = Some {| id := "fist_default"; entry := fist |}.
Proof.
  rewrite find_similar_gesture_eq by discriminate.
  rewrite fist_normalized.
  change [("fist_default"%string, fist);
          ("palm_default"%string,
           default_gesture "Palm" palm_landmarks "WAIT A MINUTE")]
    with ([] ++ ("fist_default"%string, fist)
             :: [("palm_default"%string,
                  default_gesture "Palm" palm_landmarks "WAIT A MINUTE")]).
  rewrite (scan_first_best _ [] _ "fist_default" fist 1 fist_scores_one).
  - cbn [best_score best_match leader].
    destruct (Rge_dec 1 default_threshold) as [_|H]; [reflexivity|].
    unfold default_threshold in H. lra.
  - intros ? ? ? [].
  - intros gid g s _ Hs. apply score_range in Hs. lra.
Qed.

Lemma deleted_gesture_is_never_matched_witness :
  NoDup (ids _get_default_gestures) /\
  find_similar_gesture
    (get_all_gestures
       (snd (delete_gesture NoFault
               {| gestures := _get_default_gestures;
                  disk := {| db_file := None; tmp_file := None |};
                  stdout := [] |}
               "point_up_default")))
    fist_landmarks default_threshold
  = Some {| id := "fist_default"; entry := fist |} /\
  id {| id := "fist_default"; entry := fist |} <> "point_up_default"%string.
Proof.
  split; [exact default_ids_distinct|]. split; [exact fist_first_of_two|].
  apply (deleted_gesture_is_never_matched NoFault
           {| gestures := _get_default_gestures;
              disk := {| db_file := None; tmp_file := None |};
              stdout := [] |}
           "point_up_default" fist_landmarks default_threshold
           {| id := "fist_default"; entry := fist |}
           default_ids_distinct).
  exact fist_first_of_two.
Defined.

End EnrollThenMatch.

(** ** The tracker: mean distance and most common tag *)

Section Tracker.

Import HandTracker.

Lemma pairwise_nonneg (rows : list point) :
  Forall (fun x => 0 <= x) (pairwise rows).
Proof.
  induction rows as [|p rows IH]; [constructor|].
  cbn [pairwise]. apply Forall_app. split; [|exact IH].
  rewrite Forall_forall. intros x Hx. apply in_map_iff in Hx.
  destruct Hx as (q & <- & _). apply norm3_nonneg.
Qed.

(** X26.  [_get_average_landmark_distance] answers 0 for fewer than two
    scalars without looking at them; for two or more it raises ValueError
    when their number is not a multiple of three and otherwise returns a
    mean distance that is never negative. *)
Theorem average_landmark_distance_outcome (l : list R) :
  match _get_average_landmark_distance l with
  | Ok a =>
      0 <= a /\
      ((length l < 2)%nat /\ a = 0 \/
       (2 <= length l)%nat /\ (length l mod 3 = 0)%nat)
  | Raise e =>
      e = ValueError /\ (2 <= length l)%nat /\ (length l mod 3 <> 0)%nat
  end.
Proof.
  unfold _get_average_landmark_distance.
  destruct (Nat.ltb_spec (length l) 2) as [Hshort|Hlong].
  - split; [lra|]. left. now split.
  - pose proof (reshape3_outcome l) as H.
    destruct (reshape3 l) as [rows|e]; cbn [Py.bind].
    + destruct H as [Hlen _].
      assert (Hmod : (length l mod 3 = 0)%nat)
        by (rewrite Hlen, Nat.mul_comm; apply Nat.Div0.mod_mul).
      pose proof (pairwise_nonneg rows) as Hnn.
      destruct (pairwise rows) as [|x ds].
      * split; [lra|]. right. now split.
      * split; [now apply mean_nonneg|]. right. now split.
    + destruct H as [-> Hmod]. auto.
Qed.

Lemma filter_split (f : string -> bool) (K a b : list string) (r : string) :
  filter f K = a ++ r :: b ->
  exists K1 K2, K = K1 ++ r :: K2 /\ filter f K1 = a.
Proof.
  revert a. induction K as [|k K IH]; intros a H.
  - destruct a; discriminate.
  - cbn [filter] in H. destruct (f k) eqn:Fk.
    + destruct a as [|a0 a].
      * injection H as -> _. now exists [], K.
      * injection H as -> H. destruct (IH a H) as (K1 & K2 & -> & Hf).
        exists (a0 :: K1), K2. split; [reflexivity|].
        cbn [filter]. now rewrite Fk, Hf.
    + destruct (IH a H) as (K1 & K2 & -> & Hf).
      exists (k :: K1), K2. split; [reflexivity|].
      cbn [filter]. now rewrite Fk.
Qed.

(** The keys come in the order in which they first occur in the list. *)
Lemma keys_split (l : list string) :
  forall pre r post,
    keys l = pre ++ r :: post ->
    exists lpre lpost,
      l = lpre ++ r :: lpost /\ forall x, In x lpre -> In x pre.
Proof.
  induction l as [|x l IH]; intros pre r post H.
  - destruct pre; discriminate.
  - cbn [keys] in H. destruct pre as [|p pre].
    + injection H as -> _. exists [], l. split; [reflexivity | intros ? []].
    + injection H as -> H.
      destruct (filter_split _ _ _ _ _ H) as (K1 & K2 & HK & Hf).
      destruct (IH K1 r K2 HK) as (lpre & lpost & -> & Hpre).
      exists (p :: lpre), lpost. split; [reflexivity|].
      intros y [<-|Hy]; [now left|].
      destruct (String.eqb_spec y p) as [->|Hne]; [now left|].
      right. rewrite <- Hf. apply filter_In. split; [now apply Hpre|].
      apply negb_true_iff, String.eqb_neq. exact Hne.
Qed.

(** [first_max] returns the first of the keys that no key outnumbers. *)
Lemma first_max_first (l : list string) (ks : list string) :
  forall best,
  exists pre post,
    best :: ks = pre ++ first_max l best ks :: post /\
    forall k, In k pre -> (count k l < count (first_max l best ks) l)%nat.
Proof.
  induction ks as [|k ks IH]; intros best; cbn [first_max].
  - exists [], []. split; [reflexivity | intros ? []].
  - destruct (Nat.ltb_spec (count best l) (count k l)) as [Hlt|Hge].
    + destruct (IH k) as (pre & post & Heq & Hpre).
      exists (best :: pre), post. split; [cbn [app]; f_equal; exact Heq|].
      intros k' [<-|Hk']; [|now apply Hpre].
      destruct (first_max_spec l ks k) as (_ & Hk & _). lia.
    + destruct (IH best) as (pre & post & Heq & Hpre).
      destruct pre as [|p pre].
      * injection Heq as Hb Hks. exists [], (k :: post).
        split; [cbn [app]; rewrite <- Hb; f_equal; f_equal; exact Hks
               | intros ? []].
      * injection Heq as <- Hks. exists (best :: k :: pre), post.
        split; [cbn [app]; do 2 f_equal; exact Hks|].
        intros k' [<-|[<-|Hk']].
        -- apply Hpre. now left.
        -- assert (count best l < count (first_max l best ks) l)%nat
             by (apply Hpre; now left). lia.
        -- apply Hpre. now right.
Qed.

(** X27.  [Counter(l).most_common(1)[0][0]] raises IndexError on the
    empty list only; otherwise it returns a tag of the list that no tag
    outnumbers, and among the tags that occur as often, the one that
    occurs first in the list. *)
Theorem most_common_is_the_first_mode (l : list string) :
  match most_common l with
  | Raise e => e = IndexError /\ l = []
  | Ok tag =>
      In tag l /\
      (forall t, (count t l <= count tag l)%nat) /\
      exists pre post,
        l = pre ++ tag :: post /\
        forall t, In t pre -> (count t l < count tag l)%nat
  end.
Proof.
  destruct l as [|x l]; [now split|].
  destruct (most_common_mode (x :: l)) as (tag & Htag & Hin & Hmode);
    [discriminate|].
  rewrite Htag. split; [exact Hin|]. split; [exact Hmode|].
  unfold most_common in Htag.
  destruct (keys (x :: l)) as [|k ks] eqn:E; [discriminate|].
  injection Htag as Htag.
  destruct (first_max_first (x :: l) ks k) as (pre & post & Heq & Hpre).
  rewrite Htag in Heq, Hpre. rewrite <- E in Heq.
  destruct (keys_split (x :: l) pre tag post Heq) as (lpre & lpost & Hl & Hsub).
  exists lpre, lpost. split; [exact Hl|].
  intros t Ht. apply Hpre. now apply Hsub.
Qed.

End Tracker.
